(** * CPU power measurement experiments: energy accounting and load sizing

    A shallow embedding of the measurement scripts of the repository
    (stresscpu.py, stresscpumore.py, features/dutycyclecpustress.py,
    features/freq.py, memory/memorystressbw.py, advanced/bwdatatransfer.py).

    Conventions of the embedding.
    - Python [int] is [Z]; a Python [float] is the rational [Q] it denotes.
      Where a float product is truncated by [int] or split into phases
      (the sizing of the loads, the duty cycle, the array kernels) every
      operation is rounded to double precision by [Binary64.round]; the
      energy and power formulas are stated on the value of the code's own
      expression.
    - Python [dict] with string keys is a [gmap string _]; only the mapping
      is modelled, not the insertion order.
    - Text is [string] over ASCII.
    - A call that may raise returns a [result]; orchestration code runs in
      a trace monad that records the externally visible actions in order. *)

From Stdlib Require Import ZArith QArith Qround Qpower Lqa Lia String Ascii List.
From stdpp Require Import gmap strings list fin_maps.

Local Open Scope Z_scope.

(** ** Python primitives *)

Module Py.

(** The exceptions the scripts can meet. *)
Inductive exn : Type :=
| ZeroDivisionError
| FileNotFoundError
| PermissionError
| ValueError
| RuntimeError (msg : string).

Inductive result (A : Type) : Type :=
| Ok (a : A)
| Raise (e : exn).
Arguments Ok {A} a.
Arguments Raise {A} e.

(** [x >= y] on floats. *)
Definition ge (x y : Q) : bool := Qle_bool y x.

(** [x <= y] and [x < y] on floats. *)
Definition le (x y : Q) : bool := Qle_bool x y.
Definition lt (x y : Q) : bool := negb (Qle_bool y x).

(** [int(x)] on a float: truncation toward zero. *)
Definition int_of_float (x : Q) : Z := Z.quot (Qnum x) (Z.pos (Qden x)).

(** [x / n] for a float [x] and an int [n]: true division, which raises
    [ZeroDivisionError] on a zero divisor and divides otherwise. *)
Definition truediv (x : Q) (n : Z) : result Q :=
  if Z.eqb n 0 then Raise ZeroDivisionError else Ok (x / inject_Z n)%Q.

Global Instance result_ret : MRet result := @Ok.
Global Instance result_bind : MBind result := fun A B f r =>
  match r with Ok a => f a | Raise e => Raise e end.

(** [str.isspace] on one ASCII character: tab, line feed, vertical tab,
    form feed, carriage return, the four separators 28..31 and space. *)
Definition isspace (c : ascii) : bool :=
  let n := nat_of_ascii c in
  ((9 <=? n) && (n <=? 13) || (28 <=? n) && (n <=? 32))%nat.

Fixpoint lstrip_chars (cs : list ascii) : list ascii :=
  match cs with
  | c :: cs' => if isspace c then lstrip_chars cs' else cs
  | [] => []
  end.

(** [s.strip()] *)
Definition strip (s : string) : string :=
  string_of_list_ascii
    (rev (lstrip_chars (rev (lstrip_chars (list_ascii_of_string s))))).

Definition digit_value (c : ascii) : option Z :=
  let n := nat_of_ascii c in
  if ((48 <=? n) && (n <=? 57))%nat then Some (Z.of_nat n - 48) else None.

Definition is_digit_char (c : ascii) : bool :=
  match digit_value c with Some _ => true | None => false end.

(** [s.isdigit()]: at least one character, all of them decimal digits. *)
Definition isdigit (s : string) : bool :=
  match list_ascii_of_string s with
  | [] => false
  | cs => forallb is_digit_char cs
  end.

(** The digits of an integer literal, single underscores allowed between
    digits; [after_digit] tells whether the previous character was one. *)
Fixpoint digits_value (acc : Z) (after_digit : bool) (cs : list ascii) : option Z :=
  match cs with
  | [] => if after_digit then Some acc else None
  | c :: cs' =>
      match digit_value c with
      | Some d => digits_value (10 * acc + d) true cs'
      | None =>
          if (Ascii.eqb c "_" && after_digit)%bool
          then digits_value acc false cs'
          else None
      end
  end.

(** [int(s)] on text, base 10: surrounding whitespace ignored, an optional
    sign, then the digits; [ValueError] otherwise. *)
Definition int_of_str (s : string) : result Z :=
  let body :=
    match list_ascii_of_string (strip s) with
    | c :: cs =>
        if Ascii.eqb c "+" then digits_value 0 false cs
        else if Ascii.eqb c "-" then Z.opp <$> digits_value 0 false cs
        else digits_value 0 false (c :: cs)
    | [] => None
    end in
  match body with Some n => Ok n | None => Raise ValueError end.

(** Truth value of a text: non-empty. *)
Definition truthy (s : string) : bool :=
  match s with EmptyString => false | String _ _ => true end.

Fixpoint basename_from (cur s : string) : string :=
  match s with
  | EmptyString => cur
  | String c r => if Ascii.eqb c "/" then basename_from r r else basename_from cur r
  end.

(** [os.path.basename(p)]: what follows the last slash. *)
Definition basename (p : string) : string := basename_from p p.

End Py.
Import Py.

(** ** Double precision

    A finite Python [float] is a binary64 number: a rational [m * 2^e]
    with [|m| < 2^53] and [e >= -1074]. An arithmetic operation returns
    the exact result rounded to the nearest such number, a tie going to the
    even [m]. Results beyond the largest finite double ([inf], the
    [OverflowError] of [float(n)]) are not modelled: the statements keep
    the operands within the range where none arises. *)

Module Binary64.

(** [floor(log2(x))] for a positive [x]. *)
Definition ilog2 (x : Q) : Z :=
  if Qle_bool 1 x then Z.log2 (Qfloor x) else - Z.log2_up (Qceiling (/ x)).

(** The exponent of the last of the 53 significant bits of [x], not below
    that of the subnormal numbers. *)
Definition ulp_exponent (x : Q) : Z := Z.max (ilog2 x - 52) (-1074).

(** The nearest integer, a tie going to the even one. *)
Definition rne (q : Q) : Z :=
  let f := Qfloor q in
  match (q - inject_Z f ?= 1 # 2)%Q with
  | Lt => f
  | Gt => f + 1
  | Eq => if Z.even f then f else f + 1
  end.

Definition round_pos (x : Q) : Q :=
  let e := ulp_exponent x in
  (inject_Z (rne (x / 2 ^ e)) * 2 ^ e)%Q.

(** The double nearest to [x]. *)
Definition round (x : Q) : Q :=
  match (0 ?= x)%Q with
  | Eq => 0%Q
  | Lt => round_pos x
  | Gt => (- round_pos (- x))%Q
  end.

(** [float(n)], also the conversion of the [int] operand of [n * x]. *)
Definition of_int (n : Z) : Q := round (inject_Z n).

(** [x * y], [x + y] and [x - y] on floats. *)
Definition mul (x y : Q) : Q := round (x * y).
Definition add (x y : Q) : Q := round (x + y).
Definition sub (x y : Q) : Q := round (x - y).

End Binary64.

(** ** Energy accounting on one domain
    (stresscpumore.py, features/freq.py, features/corefreq.py,
    features/dutycyclecpustress.py: the four copies are identical) *)

Definition delta_energy_wrap (prev_j curr_j max_j : Q) : Q :=
  if Py.ge curr_j prev_j then (curr_j - prev_j)%Q
  else ((max_j - prev_j) + curr_j)%Q.

(** ** Sizing of the CPU load (stresscpu.py, stresscpumore.py) *)

(** [cores_to_use = max(1, int(total_cores * target_fraction))]: the
    product of the [int] and the float is a float, rounded before [int]
    truncates it. *)
Definition cores_to_use (total_cores : Z) (target_fraction : Q) : Z :=
  Z.max 1 (Py.int_of_float
             (Binary64.mul (Binary64.of_int total_cores) target_fraction)).

(** ** Average power (advanced/bwdatatransfer.py, [main], the report loop):
    [power = v / elapsed] with [elapsed = duration], an [int] taken from
    the command line without any check. *)
Definition average_power (v : Q) (elapsed : Z) : result Q := Py.truediv v elapsed.

(** ** The power-capping interface of the host *)

Module Sysfs.

(** One file of the interface as the scripts can observe it:
    [Absent] fails [os.path.exists] and [open] raises [FileNotFoundError];
    [Protected] exists but [open] raises [PermissionError] (it can still
    be read through [sudo]); [Readable] opens and reads. *)
Inductive file : Type :=
| Absent
| Protected (content : string)
| Readable (content : string).

Definition exists_ (f : file) : bool :=
  match f with Absent => false | _ => true end.

(** [with open(p) as f: f.read()] *)
Definition read (f : file) : result string :=
  match f with
  | Absent => Raise FileNotFoundError
  | Protected _ => Raise PermissionError
  | Readable s => Ok s
  end.

(** One match of [glob.glob("/sys/class/powercap/intel-rapl:*")] with the
    three files the scripts look at under it. *)
Record rapl_entry : Type := {
  path : string;
  name : file;
  energy_uj : file;
  max_energy_range_uj : file
}.

(** The matches in the order [glob] returns them. *)
Definition powercap := list rapl_entry.

Fixpoint lookup_path (fs : powercap) (p : string) : option rapl_entry :=
  match fs with
  | [] => None
  | e :: fs' => if String.eqb (path e) p then Some e else lookup_path fs' p
  end.

End Sysfs.
Import Sysfs.

(** Microjoules to joules: [n / 1e6]. *)
Definition uj_to_j (n : Z) : Q := (inject_Z n / 1000000)%Q.

(** ** Discovery and reading of one domain
    (stresscpumore.py, features/dutycyclecpustress.py, features/freq.py) *)

Definition not_found_message (domain_name : string) : string :=
  String.append "RAPL domain '"
    (String.append domain_name
       "' not found. Use `sudo` and check /sys/class/powercap/intel-rapl:*/name").

Fixpoint find_rapl_domain (fs : powercap) (domain_name : string) : result string :=
  match fs with
  | [] => Raise (RuntimeError (not_found_message domain_name))
  | e :: fs' =>
      match Sysfs.read (name e) with
      | Ok s =>
          if String.eqb (Py.strip s) domain_name then Ok (path e)
          else find_rapl_domain fs' domain_name
      | Raise FileNotFoundError => find_rapl_domain fs' domain_name
      | Raise err => Raise err
      end
  end.

(** [open(os.path.join(path, leaf))] on the snapshot [fs]. *)
Definition open_under (fs : powercap) (p : string) (leaf : rapl_entry -> file) : result string :=
  match lookup_path fs p with
  | Some e => Sysfs.read (leaf e)
  | None => Raise FileNotFoundError
  end.

Definition read_energy_j (fs : powercap) (p : string) : result Q :=
  s ← open_under fs p energy_uj;
  n ← Py.int_of_str (Py.strip s);
  Ok (uj_to_j n).

Definition read_max_energy_j (fs : powercap) (p : string) : result Q :=
  s ← open_under fs p max_energy_range_uj;
  n ← Py.int_of_str (Py.strip s);
  Ok (uj_to_j n).

(** ** Delta over all domains
    (memory/memorystressbw.py, advanced/bwdatatransfer.py) *)

(** [for k in after: if k in before: delta[k] = after[k] - before[k]] *)
Definition compute_rapl_delta (before after : gmap string Q) : gmap string Q :=
  map_fold
    (fun k v_after delta =>
       match before !! k with
       | Some v_before => <[k := (v_after - v_before)%Q]> delta
       | None => delta
       end)
    ∅ after.

(** ** Scan of all domains
    (memory/memorystressbw.py, advanced/bwdatatransfer.py) *)

(** [for path in glob.glob("/sys/class/powercap/intel-rapl:*"): body]
    with the dictionary under construction as the state. *)
Fixpoint for_paths {S : Type} (fs : powercap)
  (body : rapl_entry -> S -> result S) (s : S) : result S :=
  match fs with
  | [] => Ok s
  | e :: fs' => s' ← body e s; for_paths fs' body s'
  end.

(** [rapl_data[domain] = joules], when the turn of the loop reaches it. *)
Definition store (reading : option (string * Q)) (rapl_data : gmap string Q)
  : gmap string Q :=
  match reading with
  | Some (domain, joules) => <[domain := joules]> rapl_data
  | None => rapl_data
  end.

Module MemoryStressBw.

(** One turn of the loop of [read_rapl_energy]: the key and the value it
    assigns, if it assigns. *)
Definition reading (e : rapl_entry) : result (option (string * Q)) :=
  domain_name ←
    (if Sysfs.exists_ (name e)
     then s ← Sysfs.read (name e); Ok (Py.strip s)
     else Ok (Py.basename (path e)));
  if Sysfs.exists_ (energy_uj e)
  then s ← Sysfs.read (energy_uj e);
       energy ← Py.int_of_str (Py.strip s);
       Ok (Some (domain_name, uj_to_j energy))
  else Ok None.

Definition read_rapl_energy (fs : powercap) : result (gmap string Q) :=
  for_paths fs (fun e rapl_data => r ← reading e; Ok (store r rapl_data)) ∅.

End MemoryStressBw.

(** ** Orchestration: the trace monad *)

Inductive sample_point : Type := Baseline | Final.

(** The actions of an orchestrator that the outside can observe. The
    informational [print] calls are left out; only the messages of a
    refusal are recorded. *)
Inductive event : Type :=
| EvPrint (msg : string)
| EvWarning (e : exn)
| EvMeasureCpu (label : string) (window : Q)
| EvMeasureMemory (label : string)
| EvEnergySample (at_ : sample_point)
| EvSpawn (w : nat)
| EvTerminate (w : nat)
| EvJoin (w : nat) (timeout : option Z)
| EvSleep (seconds : Z).

Definition is_spawn (ev : event) : bool :=
  match ev with EvSpawn _ => true | _ => false end.

(** The workers started along a trace. *)
Fixpoint spawned (tr : list event) : list nat :=
  match tr with
  | [] => []
  | EvSpawn w :: tr' => w :: spawned tr'
  | _ :: tr' => spawned tr'
  end.

(** A computation that has performed [trace] and then returned or raised. *)
Record M (A : Type) : Type := mkM { trace : list event; outcome : result A }.
Arguments mkM {A} trace outcome.
Arguments trace {A} m.
Arguments outcome {A} m.

Global Instance M_ret : MRet M := fun A a => mkM [] (Ok a).
Global Instance M_bind : MBind M := fun A B f m =>
  match outcome m with
  | Ok a => mkM (trace m ++ trace (f a)) (outcome (f a))
  | Raise e => mkM (trace m) (Raise e)
  end.

Definition emit (ev : event) : M unit := mkM [ev] (Ok tt).
Definition lift {A} (r : result A) : M A := mkM [] r.

(** [try: m finally: fin] *)
Definition try_finally {A} (m : M A) (fin : M unit) : M A :=
  mkM (trace m ++ trace fin)
      (match outcome fin with Ok _ => outcome m | Raise e => Raise e end).

(** [for x in xs: body(x)] *)
Fixpoint for_each {A} (xs : list A) (body : A -> M unit) : M unit :=
  match xs with
  | [] => mret tt
  | x :: xs' => _ ← body x; for_each xs' body
  end.

(** What the orchestrator cannot decide by itself. *)
Record host : Type := {
  cpu_count : Z;                      (* multiprocessing.cpu_count() *)
  sysfs0 : powercap;                  (* the interface up to the baseline *)
  sysfs1 : powercap;                  (* the interface at the final sample *)
  cpu_percent : string -> result Q;   (* psutil.cpu_percent, by label *)
  is_alive : nat -> bool;             (* p.is_alive() at teardown *)
  sudo_ok : bool                      (* sudo /bin/cat exits with 0 *)
}.

Definition measure_cpu (h : host) (label : string) (duration : Q) : M Q :=
  _ ← emit (EvMeasureCpu label duration);
  lift (cpu_percent h label).

Definition measure_memory (label : string) : M unit := emit (EvMeasureMemory label).

(** [read_energy_j(path)] at one of the two sampling points. *)
Definition sample_energy (at_ : sample_point) (fs : powercap) (p : string) : M Q :=
  _ ← emit (EvEnergySample at_);
  lift (read_energy_j fs p).

(** ** Load generation (stresscpumore.py, features/freq.py) *)

(** The worker handles are their creation indices. *)
Definition stress_cpu (h : host) (target_fraction : Q) : M (list nat) :=
  let total_cores := cpu_count h in
  let n := cores_to_use total_cores target_fraction in
  let processes := seq 0 (Z.to_nat n) in
  _ ← for_each processes (fun p => emit (EvSpawn p));
  mret processes.

Definition stop_processes (h : host) (processes : list nat) : M unit :=
  _ ← for_each processes
        (fun p => if is_alive h p then emit (EvTerminate p) else mret tt);
  for_each processes (fun p => emit (EvJoin p (Some 1))).

(** ** stresscpumore.py *)

Module StressCpuMore.

Definition fraction_error : string :=
  "Error: CPU fraction 'a' must be between 0 and 1.".

(** Returns the energy delta it reports, or [None] when it refused. *)
Definition main (a : Q) (duration : Z) (h : host) : M (option Q) :=
  if negb (Py.le 0 a && Py.le a 1) then
    _ ← emit (EvPrint fraction_error); mret None
  else
    rapl_path ← lift (find_rapl_domain (sysfs0 h) "core");
    max_j ← lift (read_max_energy_j (sysfs0 h) rapl_path);
    _ ← measure_cpu h "before" 1;
    e_before ← sample_energy Baseline (sysfs0 h) rapl_path;
    processes ← stress_cpu h a;
    _ ← emit (EvSleep 2);
    _ ← measure_cpu h "during" 1;
    _ ← emit (EvSleep (Z.max 0 (duration - 2)));
    _ ← stop_processes h processes;
    e_after ← sample_energy Final (sysfs1 h) rapl_path;
    let e_delta := delta_energy_wrap e_before e_after max_j in
    mret (Some e_delta).

End StressCpuMore.

(** ** features/dutycyclecpustress.py *)

Module DutyCycleCpuStress.

(** The two phases of one turn of the loop of [cpu_worker]. *)
Inductive phase : Type :=
| Burn (seconds : Q)    (* factorials until [active_time] has elapsed *)
| Sleep (seconds : Q).  (* time.sleep(idle_time) *)

(** [active_time = a * interval] and [idle_time = (1 - a) * interval],
    each operation rounded; the [int] 1 is the float 1.0. *)
Definition active_time (a interval : Q) : Q := Binary64.mul a interval.
Definition idle_time (a interval : Q) : Q :=
  Binary64.mul (Binary64.sub 1 a) interval.

Definition cpu_worker_cycle (a interval : Q) : list phase :=
  Burn (active_time a interval) ::
  (if Py.lt 0 (idle_time a interval) then [Sleep (idle_time a interval)] else []).

Definition phase_length (p : phase) : Q :=
  match p with Burn d => d | Sleep d => d end.

Definition cycle_length (c : list phase) : Q :=
  fold_right (fun p acc => (phase_length p + acc)%Q) 0%Q c.

Definition start_stress_processes (h : host) (a interval : Q) (duration : Z)
  : M (list nat) :=
  let total_cores := cpu_count h in
  let processes := seq 0 (Z.to_nat total_cores) in
  _ ← for_each processes (fun p => emit (EvSpawn p));
  mret processes.

Definition fraction_error : string :=
  "Error: fraction 'a' must be between 0 and 1.".
Definition positive_error : string :=
  "Error: interval and duration must be positive.".

(** [rapl_path] and [max_j], or the warning and [None] for both. *)
Definition discover (h : host) : M (option (string * Q)) :=
  match (p ← find_rapl_domain (sysfs0 h) "core";
         m ← read_max_energy_j (sysfs0 h) p;
         Ok (p, m)) with
  | Ok pm => mret (Some pm)
  | Raise e => _ ← emit (EvWarning e); mret None
  end.

(** [read_energy_j(rapl_path) if rapl_path else 0.0] *)
Definition sample_or_zero (at_ : sample_point) (fs : powercap)
  (rapl : option (string * Q)) : M Q :=
  match rapl with
  | Some (p, _) => if Py.truthy p then sample_energy at_ fs p else mret 0%Q
  | None => mret 0%Q
  end.

(** The measured part of [main], from the baseline to the report, once
    [rapl_path] and [max_j] are set. *)
Definition measure (a interval : Q) (duration : Z) (h : host)
  (rapl : option (string * Q)) : M (option Q) :=
  _ ← measure_cpu h "before" 1;
  e_before ← sample_or_zero Baseline (sysfs0 h) rapl;
  processes ← start_stress_processes h a interval duration;
  _ ← try_finally (measure_cpu h "during" (inject_Z duration))
                  (stop_processes h processes);
  e_after ← sample_or_zero Final (sysfs1 h) rapl;
  match rapl with
  | Some (p, max_j) =>
      if Py.truthy p
      then mret (Some (delta_energy_wrap e_before e_after max_j))
      else mret None
  | None => mret None
  end.

Definition main (a interval : Q) (duration : Z) (h : host) : M (option Q) :=
  if negb (Py.le 0 a && Py.le a 1) then
    _ ← emit (EvPrint fraction_error); mret None
  else if (Py.le interval 0 || (duration <=? 0))%bool then
    _ ← emit (EvPrint positive_error); mret None
  else
    rapl ← discover h;
    measure a interval duration h rapl.

End DutyCycleCpuStress.

(** ** advanced/bwdatatransfer.py *)

Module BwDataTransfer.

(** [sudo /bin/cat path], its output stripped; [None] when the command
    exits with an error. *)
Definition sudo_cat (h : host) (f : file) : option string :=
  if sudo_ok h then
    match f with
    | Absent => None
    | Protected s | Readable s => Some (Py.strip s)
    end
  else None.

(** One turn of the loop of [read_rapl_energy]: the key and the value it
    assigns, if it assigns. *)
Definition reading (h : host) (e : rapl_entry) : result (option (string * Q)) :=
  let domain :=
    if Sysfs.exists_ (name e) then
      match sudo_cat h (name e) with
      | Some n => if Py.truthy n then Py.strip n else Py.basename (path e)
      | None => Py.basename (path e)
      end
    else Py.basename (path e) in
  if Sysfs.exists_ (energy_uj e) then
    match sudo_cat h (energy_uj e) with
    | Some val =>
        if (Py.truthy val && Py.isdigit val)%bool
        then n ← Py.int_of_str val; Ok (Some (domain, uj_to_j n))
        else Ok None
    | None => Ok None
    end
  else Ok None.

Definition read_rapl_energy (h : host) (fs : powercap) : result (gmap string Q) :=
  for_paths fs (fun e rapl_data => r ← reading h e; Ok (store r rapl_data)) ∅.

Definition scan_energy (at_ : sample_point) (h : host) (fs : powercap)
  : M (gmap string Q) :=
  _ ← emit (EvEnergySample at_);
  lift (read_rapl_energy h fs).

Definition fraction_error : string := "Error: memory fraction must be 0–1".

(** [for k, v in delta.items(): power = v / elapsed] *)
Definition report_power (delta : gmap string Q) (elapsed : Z)
  : result (gmap string Q) :=
  map_fold (fun k v acc => r ← acc; power ← average_power v elapsed;
                           Ok (<[k := power]> r))
           (Ok ∅) delta.

(** Returns the deltas and the powers it reports, or [None] when it
    refused. *)
Definition main (a : Q) (duration workers : Z) (h : host)
  : M (option (gmap string Q * gmap string Q)) :=
  if negb (Py.lt 0 a && Py.le a 1) then
    _ ← emit (EvPrint fraction_error); mret None
  else
    _ ← measure_memory "before";
    rapl_before ← scan_energy Baseline h (sysfs0 h);
    per_worker_fraction ← lift (Py.truediv a workers);
    let procs := seq 0 (Z.to_nat workers) in
    _ ← for_each procs (fun p => emit (EvSpawn p));
    _ ← for_each procs (fun p => emit (EvJoin p None));
    _ ← measure_memory "after";
    rapl_after ← scan_energy Final h (sysfs1 h);
    let delta := compute_rapl_delta rapl_before rapl_after in
    let elapsed := duration in
    powers ← lift (report_power delta elapsed);
    mret (Some (delta, powers)).

End BwDataTransfer.

(** ** Vocabulary of the statements about discovery *)

(** The loop of [find_rapl_domain] stops on [e] with a match. *)
Definition name_matches (domain_name : string) (e : rapl_entry) : bool :=
  match name e with
  | Readable s => String.eqb (Py.strip s) domain_name
  | _ => false
  end.

(** The loop of [find_rapl_domain] passes over [e]: no name file, or a
    name file with another content. *)
Definition name_skipped (domain_name : string) (e : rapl_entry) : bool :=
  match name e with
  | Absent => true
  | Readable s => negb (String.eqb (Py.strip s) domain_name)
  | Protected _ => false
  end.

(** Discovery as the specification words it: the name of an entry is the
    content of its name file, or the identifier of the entry when that file
    cannot be read; the first entry so named is returned. *)
Fixpoint discover_domain_by_spec (fs : powercap) (domain_name : string)
  : result string :=
  match fs with
  | [] => Raise (RuntimeError (not_found_message domain_name))
  | e :: fs' =>
      let declared :=
        match Sysfs.read (name e) with
        | Ok s => Py.strip s
        | Raise _ => path e
        end in
      if String.eqb declared domain_name then Ok (path e)
      else discover_domain_by_spec fs' domain_name
  end.

(** ** Vocabulary of the statements about the scan *)


(** ** Vocabulary of the statements about sessions *)

(** Neither a worker action nor an energy sample. *)
Definition is_passive (ev : event) : bool :=
  match ev with
  | EvSpawn _ | EvTerminate _ | EvJoin _ _ | EvEnergySample _ => false
  | _ => true
  end.

Definition is_worker_event (ev : event) : bool :=
  match ev with
  | EvSpawn _ | EvTerminate _ | EvJoin _ _ => true
  | _ => false
  end.

(** What [stop_processes] does on the handles [ws]. *)
Definition stop_trace (h : host) (ws : list nat) : list event :=
  flat_map (fun p => if is_alive h p then [EvTerminate p] else []) ws ++
  map (fun p => EvJoin p (Some 1)) ws.

(** No worker is started before a baseline sample. *)
Definition baseline_precedes_workers (tr : list event) : Prop :=
  forall l1 l2, tr = l1 ++ EvEnergySample Baseline :: l2 -> spawned l1 = [].

(** A baseline sample has been taken before each start of a worker. *)
Definition workers_follow_baseline (tr : list event) : Prop :=
  forall l1 w l2, tr = l1 ++ EvSpawn w :: l2 -> In (EvEnergySample Baseline) l1.

(** When the final sample is taken, every worker started in the run has
    been joined, those still alive at teardown have been sent [terminate]
    first, and no worker action follows the sample. *)
Definition workers_stopped_before_final (h : host) (tr : list event) : Prop :=
  forall l1 l2,
    tr = l1 ++ EvEnergySample Final :: l2 ->
    (forall w, In w (spawned tr) ->
               In (EvJoin w (Some 1)) l1 /\
               (is_alive h w = true -> In (EvTerminate w) l1)) /\
    forallb (fun ev => negb (is_worker_event ev)) l2 = true.

(** Whether the session has a counter to sample. *)
Definition has_counter (rapl : option (string * Q)) : bool :=
  match rapl with Some (p, _) => Py.truthy p | None => false end.

(** The phases of a complete session that samples energy. *)
Definition session_trace (h : host) (pre mid : list event) (ws : list nat)
  : list event :=
  pre ++ [EvEnergySample Baseline] ++ map EvSpawn ws ++ mid ++
  stop_trace h ws ++ [EvEnergySample Final].

(** ** A host to run the scripts on *)

Module Demo.

Definition line (s : string) : string :=
  String.append s (String "010"%char EmptyString).

Definition package_entry (uj : string) : rapl_entry :=
  {| path := "/sys/class/powercap/intel-rapl:0";
     name := Readable (line "package-0");
     energy_uj := Readable (line uj);
     max_energy_range_uj := Readable (line "262143328850") |}.

Definition core_entry (uj : string) : rapl_entry :=
  {| path := "/sys/class/powercap/intel-rapl:0:0";
     name := Readable (line "core");
     energy_uj := Readable (line uj);
     max_energy_range_uj := Readable (line "262143328850") |}.



(** A domain directory without a name file. *)
Definition nameless_entry : rapl_entry :=
  {| path := "/sys/class/powercap/intel-rapl:1";
     name := Absent;
     energy_uj := Readable (line "1000000");
     max_energy_range_uj := Readable (line "262143328850") |}.

Definition machine : host :=
  {| cpu_count := 8;
     sysfs0 := [package_entry "5000000"; core_entry "95000000"];
     sysfs1 := [package_entry "9000000"; core_entry "99500000"];
     cpu_percent := fun _ => Ok 50%Q;
     is_alive := fun _ => true;
     sudo_ok := true |}.

End Demo.

(** ** Vocabulary of the statements about teardown *)

(** The handles joined and the handles sent [terminate] along a trace, in
    order. *)
Fixpoint joined (tr : list event) : list nat :=
  match tr with
  | [] => []
  | EvJoin w _ :: tr' => w :: joined tr'
  | _ :: tr' => joined tr'
  end.

Fixpoint terminated (tr : list event) : list nat :=
  match tr with
  | [] => []
  | EvTerminate w :: tr' => w :: terminated tr'
  | _ :: tr' => terminated tr'
  end.

(** ** More hosts *)


(** The demonstration host without a core domain. *)
Definition coreless_machine : host :=
  {| cpu_count := cpu_count Demo.machine;
     sysfs0 := [Demo.package_entry "5000000"];
     sysfs1 := [Demo.package_entry "9000000"];
     cpu_percent := cpu_percent Demo.machine;
     is_alive := is_alive Demo.machine;
     sudo_ok := sudo_ok Demo.machine |}.

(** ** More Python text primitives *)

Module PyText.

Fixpoint is_prefix (p s : list ascii) : bool :=
  match p, s with
  | [], _ => true
  | _ :: _, [] => false
  | a :: p', b :: s' => Ascii.eqb a b && is_prefix p' s'
  end.

(** The pieces of [s] between the occurrences of [sep], found from the
    left and without overlap; [skip] counts the characters of a found
    separator still to pass, [cur] holds the current piece reversed. *)
Fixpoint split_from (sep : list ascii) (skip : nat) (cur s : list ascii)
  : list (list ascii) :=
  match s with
  | [] => [rev cur]
  | c :: s' =>
      match skip with
      | S k => split_from sep k cur s'
      | O =>
          if is_prefix sep s
          then rev cur :: split_from sep (length sep - 1) [] s'
          else split_from sep 0 (c :: cur) s'
      end
  end.

(** [s.split(sep)] for a separator that is not empty. *)
Definition split (sep s : string) : list string :=
  map string_of_list_ascii
      (split_from (list_ascii_of_string sep) 0 [] (list_ascii_of_string s)).

(** [pieces[-1]] and [pieces[0]] on the result of a split, which is never
    empty. *)
Definition last_piece (pieces : list string) : string := List.last pieces EmptyString.
Definition first_piece (pieces : list string) : string := List.hd EmptyString pieces.

End PyText.

(** ** Core frequencies *)

(** One match of the glob over [cpufreq/scaling_cur_freq] with its file. *)
Definition cpufreq := list (string * file).

(** *** features/corefreq.py *)

Module CoreFreq.

(** [int(path.split("/cpu")[-1].split("/")[0])] *)
Definition cpu_of_path (p : string) : result Z :=
  Py.int_of_str
    (PyText.first_piece (PyText.split "/" (PyText.last_piece (PyText.split "/cpu" p)))).

(** The body of the [try]: the key and the value to store. *)
Definition read_core (pf : string * file) : result (Z * Q) :=
  cpu ← cpu_of_path (fst pf);
  s ← Sysfs.read (snd pf);
  freq_khz ← Py.int_of_str (Py.strip s);
  Ok (cpu, (inject_Z freq_khz / 1000)%Q).

(** [get_core_frequencies], on the matches in the order [sorted] gives. *)
Fixpoint get_core_frequencies_from (files : cpufreq) (freqs : gmap Z Q)
  : result (gmap Z Q) :=
  match files with
  | [] => Ok freqs
  | pf :: files' =>
      match read_core pf with
      | Ok (cpu, mhz) => get_core_frequencies_from files' (<[cpu := mhz]> freqs)
      | Raise FileNotFoundError | Raise ValueError =>
          get_core_frequencies_from files' freqs
      | Raise e => Raise e
      end
  end.

Definition get_core_frequencies (files : cpufreq) : result (gmap Z Q) :=
  get_core_frequencies_from files ∅.

(** [print_all_core_frequencies]: [None] with the message that nothing
    could be read, or the frequencies. *)
Definition print_all_core_frequencies (files : cpufreq) : result (option (gmap Z Q)) :=
  freqs ← get_core_frequencies files;
  if bool_decide (freqs = ∅) then Ok None else Ok (Some freqs).

End CoreFreq.

(** *** features/freq.py *)

Module Freq.

(** The body of the [try]. *)
Definition read_freq (f : file) : result Q :=
  s ← Sysfs.read f;
  freq_khz ← Py.int_of_str (Py.strip s);
  Ok (inject_Z freq_khz / 1000)%Q.

Fixpoint get_core_frequencies_from (files : cpufreq) (freqs : list Q)
  : result (list Q) :=
  match files with
  | [] => Ok freqs
  | pf :: files' =>
      match read_freq (snd pf) with
      | Ok mhz => get_core_frequencies_from files' (freqs ++ [mhz])
      | Raise FileNotFoundError | Raise ValueError =>
          get_core_frequencies_from files' freqs
      | Raise e => Raise e
      end
  end.

Definition get_core_frequencies (files : cpufreq) : result (list Q) :=
  get_core_frequencies_from files [].

(** [statistics.mean] on a list that is not empty. *)
Definition mean (xs : list Q) : Q :=
  (fold_right Qplus 0 xs / inject_Z (Z.of_nat (length xs)))%Q.

(** [print_core_frequencies]: [None] when nothing could be read, or the
    average. *)
Definition print_core_frequencies (files : cpufreq) : result (option Q) :=
  freqs ← get_core_frequencies files;
  match freqs with
  | [] => Ok None
  | _ => Ok (Some (mean freqs))
  end.

End Freq.

(** ** stressmemory.py *)

Module StressMemory.

Definition block_size : Z := 1024 * 1024.

(** [c * n] for a one-character text [c]. *)
Definition str_mul (c : ascii) (n : Z) : string :=
  string_of_list_ascii (repeat c (Z.to_nat n)).

(** [bytes_to_allocate = int(total_mem * target_fraction)] *)
Definition bytes_to_allocate (total_mem : Z) (target_fraction : Q) : Z :=
  Py.int_of_float (Binary64.mul (Binary64.of_int total_mem) target_fraction).

(** [stress_memory] on a host with [total_mem] bytes of RAM;
    [memory_error] tells whether the allocation raises [MemoryError]. *)
Definition stress_memory (total_mem : Z) (target_fraction : Q) (memory_error : bool)
  : list string :=
  let blocks := bytes_to_allocate total_mem target_fraction / block_size in
  if memory_error then []
  else repeat (str_mul "x" block_size) (Z.to_nat blocks).

(** The bytes held by the blocks. *)
Definition allocated_bytes (allocated : list string) : Z :=
  fold_right (fun block acc => Z.of_nat (String.length block) + acc) 0 allocated.

End StressMemory.

(** ** stressdisk.py *)

Module StressDisk.

Definition block_size : Z := 1024 * 1024.

(** [to_write] of [stress_disk] *)
Definition to_write (total_bytes : Z) (target_fraction : Q) : Z :=
  Py.int_of_float (Binary64.mul (Binary64.of_int total_bytes) target_fraction).

(** The loop of [write_data], the file being open: [free_blocks] writes of
    a block succeed before one raises; the result is [written] and whether
    the loop was stopped by an error. *)
Fixpoint write_data_from (free_blocks : nat) (to_write written : Z) : Z * bool :=
  if written <? to_write then
    match free_blocks with
    | O => (written, true)
    | S k => write_data_from k to_write (written + block_size)
    end
  else (written, false).

Definition write_data (free_blocks : nat) (to_write : Z) : Z * bool :=
  write_data_from free_blocks to_write 0.

End StressDisk.

(** ** The load of memory/memorystressbw.py *)

Module MemoryBandwidthStress.

(** [np.ones(n, dtype=np.float64)] *)
Definition ones (n : Z) : list Q := repeat 1%Q (Z.to_nat n).

(** [a.nbytes] for an array of float64 *)
Definition nbytes (a : list Q) : Z := 8 * Z.of_nat (length a).

(** [a += b] on arrays of one shape *)
Fixpoint add_inplace (a b : list Q) : list Q :=
  match a, b with
  | x :: a', y :: b' => Binary64.add x y :: add_inplace a' b'
  | _, _ => []
  end.

(** [for i in range(iterations): a += b] *)
Fixpoint passes (iterations : nat) (a b : list Q) : list Q :=
  match iterations with
  | O => a
  | S k => passes k (add_inplace a b) b
  end.

(** [bytes_to_use = int(total_mem * fraction)] *)
Definition bytes_to_use (total_mem : Z) (fraction : Q) : Z :=
  Py.int_of_float (Binary64.mul (Binary64.of_int total_mem) fraction).

Definition n_elements (total_mem : Z) (fraction : Q) : Z :=
  bytes_to_use total_mem fraction / 8.

(** The arrays at the end of [memory_bandwidth_stress] and [total_bytes]. *)
Definition memory_bandwidth_stress (total_mem : Z) (fraction : Q) (iterations : Z)
  : list Q * list Q * Z :=
  let a := ones (n_elements total_mem fraction) in
  let b := ones (n_elements total_mem fraction) in
  let a' := passes (Z.to_nat iterations) a b in
  let total_bytes := nbytes a' * iterations * 2 in
  (a', b, total_bytes).

End MemoryBandwidthStress.

(** ** The worker of advanced/bwdatatransfer.py *)

Module BwWorker.

(** [bytes_to_use = int(total * fraction)] *)
Definition bytes_to_use (total : Z) (fraction : Q) : Z :=
  Py.int_of_float (Binary64.mul (Binary64.of_int total) fraction).

(** The length of each of the three arrays of [worker_task]. *)
Definition n_elements (total : Z) (fraction : Q) : Z :=
  let bytes_per_array := bytes_to_use total fraction / 3 in
  bytes_per_array / 8.

(** [stream_add]: [a[i] += b[i] + c[i]] *)
Fixpoint stream_add (a b c : list Q) : list Q :=
  match a, b, c with
  | x :: a', y :: b', z :: c' =>
      Binary64.add x (Binary64.add y z) :: stream_add a' b' c'
  | _, _, _ => []
  end.

Fixpoint stream_passes (iters : nat) (a b c : list Q) : list Q :=
  match iters with
  | O => a
  | S k => stream_passes k (stream_add a b c) b c
  end.

(** The bytes of the three arrays of one worker. *)
Definition footprint (total : Z) (fraction : Q) : Z :=
  3 * (8 * Z.of_nat (length (MemoryBandwidthStress.ones (n_elements total fraction)))).

End BwWorker.


(** * Properties *)

(** ** Comparisons and truncation *)

Lemma ge_true_iff (x y : Q) : Py.ge x y = true <-> (y <= x)%Q.
Proof. unfold Py.ge. apply Qle_bool_iff. Qed.

Lemma ge_false_iff (x y : Q) : Py.ge x y = false <-> (x < y)%Q.
Proof.
  unfold Py.ge. split; intros H.
  - apply Qnot_le_lt. intros Hle. apply Qle_bool_iff in Hle. congruence.
  - destruct (Qle_bool y x) eqn:E; [|reflexivity].
    apply Qle_bool_iff in E. exfalso. apply (Qlt_not_le _ _ H E).
Qed.

Lemma le_true_iff (x y : Q) : Py.le x y = true <-> (x <= y)%Q.
Proof. unfold Py.le. apply Qle_bool_iff. Qed.

Lemma le_false_iff (x y : Q) : Py.le x y = false <-> (y < x)%Q.
Proof. apply (ge_false_iff y x). Qed.

Lemma lt_true_iff (x y : Q) : Py.lt x y = true <-> (x < y)%Q.
Proof.
  unfold Py.lt. rewrite negb_true_iff. apply (ge_false_iff x y).
Qed.

Lemma lt_false_iff (x y : Q) : Py.lt x y = false <-> (y <= x)%Q.
Proof.
  unfold Py.lt. rewrite negb_false_iff. apply Qle_bool_iff.
Qed.

(** On a non-negative float, [int] is the floor. *)
Lemma int_of_float_floor (x : Q) : (0 <= x)%Q -> Py.int_of_float x = Qfloor x.
Proof.
  intros Hx. unfold Py.int_of_float, Qfloor. destruct x as [n d]; simpl.
  apply Z.quot_div_nonneg; [|lia].
  unfold Qle in Hx; simpl in Hx. lia.
Qed.

(** ** Rounding to double precision *)

Lemma rne_floor q : Qfloor q <= Binary64.rne q <= Qfloor q + 1.
Proof.
  unfold Binary64.rne. cbv zeta.
  destruct (q - inject_Z (Qfloor q) ?= 1 # 2)%Q; [destruct (Z.even _)| |]; lia.
Qed.

Lemma rne_le_Z q n : (q <= inject_Z n)%Q -> Binary64.rne q <= n.
Proof.
  intros H.
  pose proof (Qfloor_resp_le _ _ H) as Hf. rewrite Qfloor_Z in Hf.
  destruct (Z.eq_dec (Qfloor q) n) as [E|E].
  - unfold Binary64.rne. cbv zeta.
    assert (Hq : (q - inject_Z (Qfloor q) < 1 # 2)%Q).
    { rewrite E. lra. }
    rewrite Qlt_alt in Hq. rewrite Hq. lia.
  - pose proof (rne_floor q). lia.
Qed.

Lemma rne_ge_Z q n : (inject_Z n <= q)%Q -> n <= Binary64.rne q.
Proof.
  intros H.
  pose proof (Qfloor_resp_le _ _ H) as Hf. rewrite Qfloor_Z in Hf.
  pose proof (rne_floor q). lia.
Qed.

Lemma rne_Z n : Binary64.rne (inject_Z n) = n.
Proof.
  apply Z.le_antisymm; [apply rne_le_Z | apply rne_ge_Z]; lra.
Qed.

#[global] Instance rne_comp : Proper (Qeq ==> eq) Binary64.rne.
Proof.
  intros q q' E. unfold Binary64.rne. cbv zeta.
  rewrite (Qfloor_comp _ _ E).
  assert (E' : (q - inject_Z (Qfloor q') == q' - inject_Z (Qfloor q'))%Q) by (rewrite E; reflexivity).
  rewrite (Qcompare_comp _ _ E' (1#2) (1#2) (Qeq_refl _)). reflexivity.
Qed.

Lemma Qle_bool_comp x x' y y' : (x == x')%Q -> (y == y')%Q -> Qle_bool x y = Qle_bool x' y'.
Proof.
  intros Ex Ey. apply eq_true_iff_eq. rewrite !Qle_bool_iff, Ex, Ey. reflexivity.
Qed.

#[global] Instance ilog2_comp : Proper (Qeq ==> eq) Binary64.ilog2.
Proof.
  intros q q' E. unfold Binary64.ilog2.
  rewrite (Qle_bool_comp 1%Q 1%Q q q' (Qeq_refl _) E), (Qfloor_comp _ _ E).
  assert (E' : (/ q == / q')%Q) by (rewrite E; reflexivity).
  rewrite (Qceiling_comp _ _ E'). reflexivity.
Qed.

#[global] Instance round_pos_comp : Proper (Qeq ==> Qeq) Binary64.round_pos.
Proof.
  intros q q' E. unfold Binary64.round_pos, Binary64.ulp_exponent. cbv zeta.
  rewrite (ilog2_comp _ _ E).
  assert (E' : (q / 2 ^ Z.max (Binary64.ilog2 q' - 52) (-1074) ==
                q' / 2 ^ Z.max (Binary64.ilog2 q' - 52) (-1074))%Q) by (rewrite E; reflexivity).
  rewrite (rne_comp _ _ E'). reflexivity.
Qed.

#[global] Instance round_comp : Proper (Qeq ==> Qeq) Binary64.round.
Proof.
  intros q q' E. unfold Binary64.round.
  rewrite (Qcompare_comp 0%Q 0%Q (Qeq_refl _) _ _ E).
  destruct (0 ?= q')%Q; [reflexivity | rewrite E; reflexivity |].
  assert (E' : (- q == - q')%Q) by (rewrite E; reflexivity).
  rewrite E'. reflexivity.
Qed.

Lemma pow2_pos e : (0 < 2 ^ e)%Q.
Proof. apply Qpower_0_lt. reflexivity. Qed.

Lemma round_pos_nonneg x : (0 <= x)%Q -> (0 <= Binary64.round_pos x)%Q.
Proof.
  intros H. unfold Binary64.round_pos. cbv zeta.
  pose proof (pow2_pos (Binary64.ulp_exponent x)) as Hp.
  apply Qmult_le_0_compat; [|lra].
  change 0%Q with (inject_Z 0). rewrite <- Zle_Qle. apply rne_ge_Z.
  change (inject_Z 0) with 0%Q. apply Qle_shift_div_l; [exact Hp | lra].
Qed.

Lemma round_nonneg x : (0 <= x)%Q -> (0 <= Binary64.round x)%Q.
Proof.
  intros H. unfold Binary64.round.
  destruct (0 ?= x)%Q eqn:C.
  - lra.
  - apply round_pos_nonneg, H.
  - rewrite <- Qgt_alt in C. lra.
Qed.

Lemma round_0 x : (x == 0)%Q -> (Binary64.round x == 0)%Q.
Proof. intros ->. reflexivity. Qed.

Lemma ilog2_le_52 x : (0 < x)%Q -> (x < inject_Z (2 ^ 53))%Q -> Binary64.ilog2 x <= 52.
Proof.
  intros H0 H. unfold Binary64.ilog2.
  destruct (Qle_bool 1 x) eqn:C.
  - apply Qle_bool_iff in C.
    assert (Hf : 1 <= Qfloor x).
    { rewrite <- (Qfloor_Z 1). apply Qfloor_resp_le. exact C. }
    assert (Hu : Qfloor x < 2 ^ 53).
    { rewrite Zlt_Qlt. eapply Qle_lt_trans; [apply Qfloor_le | exact H]. }
    assert (Z.log2 (Qfloor x) < 53) by (apply Z.log2_lt_pow2; lia).
    lia.
  - pose proof (Z.log2_up_nonneg (Qceiling (/ x))). lia.
Qed.

(** On the grid of a value below [2^53] every integer is a grid point. *)
Lemma pow2_nonpos_inv e : e <= 0 -> (2 ^ e * inject_Z (2 ^ (- e)) == 1)%Q.
Proof.
  intros H. rewrite Zpower_Qpower by lia. rewrite Qpower_opp.
  change (inject_Z 2) with 2%Q.
  pose proof (pow2_pos e). field. lra.
Qed.

Lemma grid_point x n :
  (0 < x)%Q -> (x < inject_Z (2 ^ 53))%Q ->
  (inject_Z n
   == inject_Z (n * 2 ^ (- Binary64.ulp_exponent x)) * 2 ^ Binary64.ulp_exponent x)%Q.
Proof.
  intros H0 Hu.
  assert (He : Binary64.ulp_exponent x <= 0).
  { unfold Binary64.ulp_exponent. pose proof (ilog2_le_52 x H0 Hu). lia. }
  pose proof (pow2_nonpos_inv _ He) as Hi.
  rewrite inject_Z_mult, <- Qmult_assoc.
  rewrite (Qmult_comm (inject_Z (2 ^ (- Binary64.ulp_exponent x)))), Hi. ring.
Qed.

Lemma round_pos_le_Z x n :
  (0 < x)%Q -> (x < inject_Z (2 ^ 53))%Q -> (x <= inject_Z n)%Q ->
  (Binary64.round_pos x <= inject_Z n)%Q.
Proof.
  intros H0 Hu H. unfold Binary64.round_pos. cbv zeta.
  pose proof (pow2_pos (Binary64.ulp_exponent x)) as Hp.
  pose proof (grid_point x n H0 Hu) as En.
  rewrite En. apply Qmult_le_compat_r; [|lra].
  rewrite <- Zle_Qle. apply rne_le_Z.
  apply Qle_shift_div_r; [exact Hp|]. rewrite <- En. exact H.
Qed.

Lemma round_pos_ge_Z x n :
  (0 < x)%Q -> (x < inject_Z (2 ^ 53))%Q -> (inject_Z n <= x)%Q ->
  (inject_Z n <= Binary64.round_pos x)%Q.
Proof.
  intros H0 Hu H. unfold Binary64.round_pos. cbv zeta.
  pose proof (pow2_pos (Binary64.ulp_exponent x)) as Hp.
  pose proof (grid_point x n H0 Hu) as En.
  rewrite En. apply Qmult_le_compat_r; [|lra].
  rewrite <- Zle_Qle. apply rne_ge_Z.
  apply Qle_shift_div_l; [exact Hp|]. rewrite <- En. exact H.
Qed.

Lemma round_le_Z x n :
  (0 <= x)%Q -> (x < inject_Z (2 ^ 53))%Q -> (x <= inject_Z n)%Q ->
  (Binary64.round x <= inject_Z n)%Q.
Proof.
  intros H0 Hu H. unfold Binary64.round.
  destruct (0 ?= x)%Q eqn:C.
  - rewrite <- Qeq_alt in C. lra.
  - rewrite <- Qlt_alt in C. apply round_pos_le_Z; assumption.
  - rewrite <- Qgt_alt in C. lra.
Qed.

Lemma round_ge_Z x n :
  (0 <= x)%Q -> (x < inject_Z (2 ^ 53))%Q -> (inject_Z n <= x)%Q ->
  (inject_Z n <= Binary64.round x)%Q.
Proof.
  intros H0 Hu H. unfold Binary64.round.
  destruct (0 ?= x)%Q eqn:C.
  - rewrite <- Qeq_alt in C. lra.
  - rewrite <- Qlt_alt in C. apply round_pos_ge_Z; assumption.
  - rewrite <- Qgt_alt in C. lra.
Qed.

Lemma round_Z n : 0 <= n <= 2 ^ 53 -> (Binary64.round (inject_Z n) == inject_Z n)%Q.
Proof.
  intros [H0 Hu].
  destruct (Z.eq_dec n (2 ^ 53)) as [->|Hn]; [vm_compute; reflexivity|].
  assert (Hlt : (inject_Z n < inject_Z (2 ^ 53))%Q) by (rewrite <- Zlt_Qlt; lia).
  assert (H0' : (0 <= inject_Z n)%Q) by (change 0%Q with (inject_Z 0); rewrite <- Zle_Qle; lia).
  apply Qle_antisym; [apply round_le_Z | apply round_ge_Z]; try assumption; lra.
Qed.

Lemma rne_mono q q' : (q <= q')%Q -> Binary64.rne q <= Binary64.rne q'.
Proof.
  intros H.
  pose proof (Qfloor_resp_le _ _ H) as Hf.
  destruct (Z.eq_dec (Qfloor q) (Qfloor q')) as [E|E].
  - unfold Binary64.rne. cbv zeta. rewrite <- E.
    destruct (q - inject_Z (Qfloor q) ?= 1 # 2)%Q eqn:C;
      destruct (q' - inject_Z (Qfloor q) ?= 1 # 2)%Q eqn:C';
      try rewrite <- Qeq_alt in *; try rewrite <- Qlt_alt in *; try rewrite <- Qgt_alt in *;
      try destruct (Z.even (Qfloor q)); try lia; exfalso; lra.
  - pose proof (rne_floor q). pose proof (rne_floor q'). lia.
Qed.

Lemma ilog2_spec x : (0 < x)%Q ->
  (2 ^ Binary64.ilog2 x <= x /\ x < 2 ^ (Binary64.ilog2 x + 1))%Q.
Proof.
  intros H0. unfold Binary64.ilog2.
  destruct (Qle_bool 1 x) eqn:C.
  - apply Qle_bool_iff in C.
    assert (Hf : 1 <= Qfloor x).
    { rewrite <- (Qfloor_Z 1). apply Qfloor_resp_le. exact C. }
    pose proof (Z.log2_nonneg (Qfloor x)) as Hk.
    destruct (Z.log2_spec (Qfloor x)) as [Hl Hu]; [lia|].
    change 2%Q with (inject_Z 2). rewrite <- !Zpower_Qpower by lia.
    split.
    + eapply Qle_trans; [| apply Qfloor_le]. rewrite <- Zle_Qle. exact Hl.
    + eapply Qlt_le_trans; [apply Qlt_floor|]. rewrite <- Zle_Qle.
      replace (Z.succ (Z.log2 (Qfloor x))) with (Z.log2 (Qfloor x) + 1) in Hu by lia. lia.
  - assert (Hx : (x < 1)%Q).
    { apply Qnot_le_lt. intros Hc. apply Qle_bool_iff in Hc. congruence. }
    assert (Hinv : (1 < / x)%Q).
    { apply Qlt_shift_inv_l; [exact H0 | lra]. }
    set (c := Qceiling (/ x)).
    assert (Hc1 : (/ x <= inject_Z c)%Q) by apply Qle_ceiling.
    assert (Hc2 : (inject_Z (c - 1) < / x)%Q) by apply Qceiling_lt.
    assert (Hc : 1 < c).
    { rewrite Zlt_Qlt. change (inject_Z 1) with 1%Q. lra. }
    destruct (Z.log2_up_spec c Hc) as [Hl Hu].
    pose proof (Z.log2_up_nonneg c) as Hj.
    set (j := Z.log2_up c) in *.
    assert (Hj1 : 1 <= j).
    { destruct (Z.eq_dec j 0) as [E|E]; [|lia]. rewrite E in Hu. simpl in Hu. lia. }
    assert (Hxi : (x * / x == 1)%Q) by (apply Qmult_inv_r; lra).
    split.
    + rewrite Qpower_opp. change 2%Q with (inject_Z 2). rewrite <- Zpower_Qpower by lia.
      assert (Hp : (0 < inject_Z (2 ^ j))%Q).
      { change 0%Q with (inject_Z 0). rewrite <- Zlt_Qlt. lia. }
      apply Qle_shift_inv_r; [exact Hp|].
      rewrite Zle_Qle in Hu.
      assert (Hm : (x * / x <= x * inject_Z (2 ^ j))%Q).
      { apply Qmult_le_l; [exact H0 | lra]. }
      lra.
    + replace (- j + 1) with (- (j - 1)) by lia.
      rewrite Qpower_opp. change 2%Q with (inject_Z 2). rewrite <- Zpower_Qpower by lia.
      assert (Hp : (0 < inject_Z (2 ^ (j - 1)))%Q).
      { change 0%Q with (inject_Z 0). rewrite <- Zlt_Qlt. lia. }
      apply Qlt_shift_inv_l; [exact Hp|].
      replace (Z.pred j) with (j - 1) in Hl by lia.
      assert (Hl' : 2 ^ (j - 1) <= c - 1) by lia.
      rewrite Zle_Qle in Hl'.
      assert (Hm : (x * inject_Z (2 ^ (j - 1)) < x * / x)%Q).
      { apply Qmult_lt_l; [exact H0 | lra]. }
      lra.
Qed.

Lemma ilog2_mono x y : (0 < x)%Q -> (x <= y)%Q -> Binary64.ilog2 x <= Binary64.ilog2 y.
Proof.
  intros H0 H.
  destruct (ilog2_spec x H0) as [Hx _].
  destruct (ilog2_spec y) as [_ Hy]; [lra|].
  assert (Hlt : (2 ^ Binary64.ilog2 x < 2 ^ (Binary64.ilog2 y + 1))%Q) by lra.
  apply Qpower_lt_compat_l_inv in Hlt; [lia | reflexivity].
Qed.

Lemma pow2_split a b : (2 ^ (a + b) == 2 ^ a * 2 ^ b)%Q.
Proof. apply Qpower_plus. discriminate. Qed.

(** A positive value rounds within its binade. *)
Lemma round_pos_binade x : (0 < x)%Q ->
  let e := Binary64.ulp_exponent x in
  (Binary64.round_pos x <= 2 ^ (e + 53))%Q /\
  (Binary64.ilog2 x - 52 = e -> (2 ^ Binary64.ilog2 x <= Binary64.round_pos x)%Q).
Proof.
  intros H0 e. destruct (ilog2_spec x H0) as [Hl Hu].
  pose proof (pow2_pos e) as Hp.
  unfold Binary64.round_pos. cbv zeta. fold e.
  assert (He : Binary64.ilog2 x - 52 <= e) by (unfold e, Binary64.ulp_exponent; lia).
  split.
  - assert (Hr : Binary64.rne (x / 2 ^ e) <= 2 ^ 53).
    { apply rne_le_Z. apply Qle_shift_div_r; [exact Hp|].
      rewrite Zpower_Qpower by lia. change (inject_Z 2) with 2%Q.
      rewrite <- pow2_split.
      eapply Qle_trans; [apply Qlt_le_weak, Hu|].
      apply Qpower_le_compat_l; [lia | discriminate]. }
    rewrite Zle_Qle in Hr.
    rewrite (Z.add_comm e 53), pow2_split.
    rewrite Zpower_Qpower in Hr by lia. change (inject_Z 2) with 2%Q in Hr.
    apply Qmult_le_compat_r; [exact Hr | lra].
  - intros Ee.
    assert (Hr : 2 ^ 52 <= Binary64.rne (x / 2 ^ e)).
    { apply rne_ge_Z. apply Qle_shift_div_l; [exact Hp|].
      rewrite Zpower_Qpower by lia. change (inject_Z 2) with 2%Q.
      rewrite <- pow2_split.
      replace (52 + e) with (Binary64.ilog2 x) by lia. exact Hl. }
    rewrite Zle_Qle in Hr.
    rewrite Zpower_Qpower in Hr by lia. change (inject_Z 2) with 2%Q in Hr.
    replace (Binary64.ilog2 x) with (52 + e) at 1 by lia.
    rewrite pow2_split.
    apply Qmult_le_compat_r; [exact Hr | lra].
Qed.

Lemma round_pos_mono x y : (0 < x)%Q -> (x <= y)%Q ->
  (Binary64.round_pos x <= Binary64.round_pos y)%Q.
Proof.
  intros H0 H.
  assert (H0y : (0 < y)%Q) by lra.
  pose proof (ilog2_mono x y H0 H) as Hk.
  destruct (Z.eq_dec (Binary64.ulp_exponent x) (Binary64.ulp_exponent y)) as [E|E].
  - unfold Binary64.round_pos. cbv zeta. rewrite E.
    pose proof (pow2_pos (Binary64.ulp_exponent y)) as Hp.
    apply Qmult_le_compat_r; [|lra].
    rewrite <- Zle_Qle. apply rne_mono.
    apply Qmult_le_compat_r; [exact H|].
    apply Qlt_le_weak, Qinv_lt_0_compat, Hp.
  - destruct (round_pos_binade x H0) as [Hx _].
    destruct (round_pos_binade y H0y) as [_ Hy].
    assert (Ey : Binary64.ilog2 y - 52 = Binary64.ulp_exponent y)
      by (unfold Binary64.ulp_exponent in *; lia).
    specialize (Hy Ey).
    assert (Hle : (2 ^ (Binary64.ulp_exponent x + 53) <= 2 ^ Binary64.ilog2 y)%Q).
    { apply Qpower_le_compat_l; [|discriminate].
      unfold Binary64.ulp_exponent in *; lia. }
    lra.
Qed.

Lemma round_mono x y : (x <= y)%Q -> (Binary64.round x <= Binary64.round y)%Q.
Proof.
  intros H. unfold Binary64.round.
  destruct (0 ?= x)%Q eqn:Cx; destruct (0 ?= y)%Q eqn:Cy;
    try rewrite <- Qeq_alt in *; try rewrite <- Qlt_alt in *; try rewrite <- Qgt_alt in *;
    try lra.
  - apply round_pos_nonneg. lra.
  - apply round_pos_mono; assumption.
  - assert (0 <= Binary64.round_pos (- x))%Q by (apply round_pos_nonneg; lra). lra.
  - assert (0 <= Binary64.round_pos (- x))%Q by (apply round_pos_nonneg; lra).
    assert (0 <= Binary64.round_pos y)%Q by (apply round_pos_nonneg; lra). lra.
  - assert (Binary64.round_pos (- y) <= Binary64.round_pos (- x))%Q
      by (apply round_pos_mono; lra).
    lra.
Qed.

(** *** The error of a rounding *)

Lemma rne_error q :
  (inject_Z (Binary64.rne q) - (1 # 2) <= q)%Q /\
  (q <= inject_Z (Binary64.rne q) + (1 # 2))%Q.
Proof.
  pose proof (Qfloor_le q) as Hl. pose proof (Qlt_floor q) as Hu.
  rewrite inject_Z_plus in Hu. change (inject_Z 1) with 1%Q in Hu.
  unfold Binary64.rne. cbv zeta.
  destruct (q - inject_Z (Qfloor q) ?= 1 # 2)%Q eqn:C;
    [rewrite <- Qeq_alt in C; destruct (Z.even (Qfloor q))
    | rewrite <- Qlt_alt in C | rewrite <- Qgt_alt in C];
    rewrite ?inject_Z_plus; change (inject_Z 1) with 1%Q; split; lra.
Qed.

Lemma round_pos_error x : (0 < x)%Q ->
  (Binary64.round_pos x - 2 ^ Binary64.ulp_exponent x * (1 # 2) <= x)%Q /\
  (x <= Binary64.round_pos x + 2 ^ Binary64.ulp_exponent x * (1 # 2))%Q.
Proof.
  intros H0. unfold Binary64.round_pos. cbv zeta.
  pose proof (pow2_pos (Binary64.ulp_exponent x)) as Hp.
  destruct (rne_error (x / 2 ^ Binary64.ulp_exponent x)) as [Hl Hu].
  assert (Ex : (x / 2 ^ Binary64.ulp_exponent x * 2 ^ Binary64.ulp_exponent x == x)%Q).
  { field. lra. }
  revert Hl Hu Ex.
  generalize (inject_Z (Binary64.rne (x / 2 ^ Binary64.ulp_exponent x))).
  generalize (x / 2 ^ Binary64.ulp_exponent x)%Q.
  generalize dependent (2 ^ Binary64.ulp_exponent x)%Q.
  intros p Hp q r Hl Hu Ex.
  assert (H1 : ((r - (1 # 2)) * p <= q * p)%Q) by (apply Qmult_le_compat_r; lra).
  assert (H2 : (q * p <= (r + (1 # 2)) * p)%Q) by (apply Qmult_le_compat_r; lra).
  assert (E1 : ((r - (1 # 2)) * p == r * p - p * (1 # 2))%Q) by ring.
  assert (E2 : ((r + (1 # 2)) * p == r * p + p * (1 # 2))%Q) by ring.
  split; lra.
Qed.

Lemma ulp_bound x : (0 < x)%Q ->
  (2 ^ Binary64.ulp_exponent x <= x * 2 ^ (-52) + 2 ^ (-1074))%Q.
Proof.
  intros H0. destruct (ilog2_spec x H0) as [Hl _].
  pose proof (pow2_pos (-52)) as H52. pose proof (pow2_pos (-1074)) as Hs.
  unfold Binary64.ulp_exponent.
  destruct (Z.max_spec (Binary64.ilog2 x - 52) (-1074)) as [[_ ->]|[_ ->]].
  - assert (0 <= x * 2 ^ (-52))%Q by (apply Qmult_le_0_compat; lra). lra.
  - replace (Binary64.ilog2 x - 52) with (Binary64.ilog2 x + (-52)) by lia.
    rewrite pow2_split.
    assert (2 ^ Binary64.ilog2 x * 2 ^ (-52) <= x * 2 ^ (-52))%Q
      by (apply Qmult_le_compat_r; lra).
    lra.
Qed.

(** The relative error of a rounding is at most [2^-53], the absolute one
    of a subnormal result at most [2^-1075]. *)
Lemma round_error x : (0 <= x)%Q ->
  (x - (x * 2 ^ (-53) + 2 ^ (-1075)) <= Binary64.round x)%Q /\
  (Binary64.round x <= x + (x * 2 ^ (-53) + 2 ^ (-1075)))%Q.
Proof.
  intros H0.
  assert (E53 : (2 ^ (-53) == 2 ^ (-52) * (1 # 2))%Q) by reflexivity.
  assert (E75 : (2 ^ (-1075) == 2 ^ (-1074) * (1 # 2))%Q) by reflexivity.
  pose proof (pow2_pos (-52)) as H52. pose proof (pow2_pos (-1074)) as Hs.
  unfold Binary64.round.
  destruct (0 ?= x)%Q eqn:C.
  - rewrite <- Qeq_alt in C. rewrite E53, E75, <- C. split; lra.
  - rewrite <- Qlt_alt in C.
    destruct (round_pos_error x C) as [Hl Hu]. pose proof (ulp_bound x C) as Hb.
    rewrite E53, E75.
    remember (2 ^ (-52))%Q as t eqn:Et. remember (2 ^ (-1074))%Q as s eqn:Es.
    remember (2 ^ Binary64.ulp_exponent x)%Q as p eqn:Ep.
    remember (Binary64.round_pos x) as r eqn:Er.
    assert (E : (x * (t * (1 # 2)) == x * t * (1 # 2))%Q) by ring.
    split; lra.
  - rewrite <- Qgt_alt in C. lra.
Qed.

(** *** Truncation of a rounded value *)

Lemma int_of_float_round_bounds (x : Q) :
  (0 <= x)%Q -> (x < inject_Z (2 ^ 53))%Q ->
  Qfloor x <= Py.int_of_float (Binary64.round x) <= Qfloor x + 1.
Proof.
  intros H0 Hu.
  rewrite int_of_float_floor by (apply round_nonneg; exact H0).
  split.
  - rewrite <- (Qfloor_Z (Qfloor x)) at 1. apply Qfloor_resp_le.
    apply round_ge_Z; [exact H0 | exact Hu | apply Qfloor_le].
  - rewrite <- (Qfloor_Z (Qfloor x + 1)). apply Qfloor_resp_le.
    apply round_le_Z; [exact H0 | exact Hu | apply Qlt_le_weak, Qlt_floor].
Qed.

Lemma of_int_exact (n : Z) :
  0 <= n <= 2 ^ 53 -> (Binary64.of_int n == inject_Z n)%Q.
Proof. apply round_Z. Qed.

Lemma of_int_nonneg (n : Z) : 0 <= n -> (0 <= Binary64.of_int n)%Q.
Proof.
  intros H. apply round_nonneg.
  change 0%Q with (inject_Z 0). rewrite <- Zle_Qle. exact H.
Qed.

(** [int(n * x)] for an [int] [n] and a float [x], as the scripts size
    their loads. *)
Lemma sized_nonneg (n : Z) (x : Q) :
  0 <= n -> (0 <= x)%Q ->
  0 <= Py.int_of_float (Binary64.mul (Binary64.of_int n) x).
Proof.
  intros Hn Hx.
  assert (Hp : (0 <= Binary64.mul (Binary64.of_int n) x)%Q).
  { apply round_nonneg, Qmult_le_0_compat; [apply of_int_nonneg, Hn | exact Hx]. }
  rewrite int_of_float_floor by exact Hp.
  rewrite <- (Qfloor_Z 0). apply Qfloor_resp_le. exact Hp.
Qed.

Lemma sized_floor (n : Z) (x : Q) :
  0 <= n -> (0 <= x)%Q ->
  Py.int_of_float (Binary64.mul (Binary64.of_int n) x)
  = Qfloor (Binary64.mul (Binary64.of_int n) x).
Proof.
  intros Hn Hx. apply int_of_float_floor.
  apply round_nonneg, Qmult_le_0_compat; [apply of_int_nonneg, Hn | exact Hx].
Qed.

Lemma sized_exact_operand (n : Z) (x : Q) :
  0 <= n <= 2 ^ 53 -> (0 <= x)%Q ->
  Py.int_of_float (Binary64.mul (Binary64.of_int n) x)
  = Py.int_of_float (Binary64.round (inject_Z n * x)).
Proof.
  intros Hn Hx.
  assert (Hq : (0 <= inject_Z n)%Q)
    by (change 0%Q with (inject_Z 0); rewrite <- Zle_Qle; lia).
  rewrite sized_floor by (lia || exact Hx).
  rewrite int_of_float_floor by (apply round_nonneg, Qmult_le_0_compat; assumption).
  apply Qfloor_comp. unfold Binary64.mul. apply round_comp.
  rewrite (of_int_exact n Hn). reflexivity.
Qed.

(** The truncated double product is the floor of the exact product or
    one above it, and stays within the total. *)
Lemma sized_bounds (n : Z) (x : Q) :
  0 <= n < 2 ^ 53 -> (0 <= x)%Q -> (x <= 1)%Q ->
  Qfloor (inject_Z n * x)
    <= Py.int_of_float (Binary64.mul (Binary64.of_int n) x)
    <= Qfloor (inject_Z n * x) + 1 /\
  Py.int_of_float (Binary64.mul (Binary64.of_int n) x) <= n.
Proof.
  intros Hn Hx0 Hx1.
  assert (Hq : (0 <= inject_Z n)%Q)
    by (change 0%Q with (inject_Z 0); rewrite <- Zle_Qle; lia).
  assert (Hp : (0 <= inject_Z n * x)%Q) by (apply Qmult_le_0_compat; assumption).
  assert (Hle : (inject_Z n * x <= inject_Z n)%Q).
  { assert (Hd : (0 <= inject_Z n * (1 - x))%Q) by (apply Qmult_le_0_compat; lra).
    assert (Hd' : (inject_Z n * (1 - x) == inject_Z n - inject_Z n * x)%Q) by ring.
    lra. }
  assert (Hu : (inject_Z n * x < inject_Z (2 ^ 53))%Q).
  { eapply Qle_lt_trans; [exact Hle|]. rewrite <- Zlt_Qlt. lia. }
  rewrite sized_exact_operand by (lia || exact Hx0).
  split; [apply int_of_float_round_bounds; assumption|].
  rewrite int_of_float_floor by (apply round_nonneg; exact Hp).
  rewrite <- (Qfloor_Z n) at 2. apply Qfloor_resp_le.
  apply round_le_Z; assumption.
Qed.

Lemma int_of_float_zero (x : Q) : (x == 0)%Q -> Py.int_of_float x = 0.
Proof.
  intros H. unfold Qeq in H. cbn in H. unfold Py.int_of_float.
  replace (Qnum x) with 0 by lia. apply Z.quot_0_l. discriminate.
Qed.

(** At fraction 0 the product is 0 and the load is one worker. *)
Lemma cores_to_use_zero (total_cores : Z) : cores_to_use total_cores 0 = 1.
Proof.
  unfold cores_to_use. rewrite int_of_float_zero; [reflexivity|].
  unfold Binary64.mul. apply round_0. ring.
Qed.

(** ** Single-domain delta *)

(** C1. For readings within the counter range, the single-domain delta is
    [curr - prev] when the counter did not wrap and [(max - prev) + curr]
    when it did; the result lies in [[0, max]]; and the documented wrap
    scenario (max 100 J, 95 J then 5 J) yields 10 J. *)
Theorem delta_energy_wrap_spec (prev curr max : Q) :
  (0 <= prev <= max)%Q -> (0 <= curr <= max)%Q ->
  ((prev <= curr)%Q -> delta_energy_wrap prev curr max = (curr - prev)%Q) /\
  ((curr < prev)%Q -> delta_energy_wrap prev curr max = ((max - prev) + curr)%Q) /\
  (0 <= delta_energy_wrap prev curr max <= max)%Q /\
  delta_energy_wrap 95 5 100 = 10%Q.
Proof.
  intros [Hp0 Hpm] [Hc0 Hcm]. unfold delta_energy_wrap.
  split; [|split; [|split]].
  - intros Hle. apply ge_true_iff in Hle. now rewrite Hle.
  - intros Hlt. apply ge_false_iff in Hlt. now rewrite Hlt.
  - destruct (Py.ge curr prev) eqn:E.
    + apply ge_true_iff in E. lra.
    + apply ge_false_iff in E. lra.
  - reflexivity.
Qed.

Lemma delta_energy_wrap_spec_witness :
  delta_energy_wrap 95 5 100 = ((100 - 95) + 5)%Q /\
  (0 <= delta_energy_wrap 95 5 100 <= 100)%Q.
Proof.
  assert (H0 : (0 <= 95 <= 100)%Q) by (split; discriminate).
  assert (H1 : (0 <= 5 <= 100)%Q) by (split; discriminate).
  destruct (delta_energy_wrap_spec 95 5 100 H0 H1) as (_ & Hw & Hb & _).
  split; [apply Hw; reflexivity | exact Hb].
Defined.

(** ** Worker count of the full-intensity CPU load *)

Lemma for_each_spawn_trace (ws : list nat) :
  trace (for_each ws (fun p => emit (EvSpawn p))) = map EvSpawn ws /\
  outcome (for_each ws (fun p => emit (EvSpawn p))) = Ok tt.
Proof.
  induction ws as [|w ws [IHt IHo]]; [split; reflexivity|].
  cbn [for_each]. unfold mbind, M_bind. cbn [emit outcome trace].
  rewrite IHt, IHo. split; reflexivity.
Qed.

Lemma spawned_map_spawn (ws : list nat) : spawned (map EvSpawn ws) = ws.
Proof. induction ws as [|w ws IH]; [reflexivity|]. cbn. now rewrite IH. Qed.

Lemma stress_cpu_run (h : host) (f : Q) :
  stress_cpu h f =
  mkM (map EvSpawn (seq 0 (Z.to_nat (cores_to_use (cpu_count h) f))))
      (Ok (seq 0 (Z.to_nat (cores_to_use (cpu_count h) f)))).
Proof.
  unfold stress_cpu. cbv zeta. unfold mbind, M_bind.
  destruct (for_each_spawn_trace (seq 0 (Z.to_nat (cores_to_use (cpu_count h) f))))
    as [Ht Ho].
  rewrite Ho, Ht. cbn. now rewrite app_nil_r.
Qed.

(** The double nearest to 0.7 on ten cores: the product rounds up to 7.0
    and seven workers start, where the floor of the exact product of the
    cores and the fraction is 6. *)
Lemma cores_to_use_rounds_product :
  (Binary64.round 0.7 == 3152519739159347 # 4503599627370496)%Q /\
  (0 < Binary64.round 0.7)%Q /\ (Binary64.round 0.7 <= 1)%Q /\
  cores_to_use 10 (Binary64.round 0.7) = 7 /\
  spawned (trace (stress_cpu
                    {| cpu_count := 10; sysfs0 := []; sysfs1 := [];
                       cpu_percent := fun _ => Ok 0%Q;
                       is_alive := fun _ => true; sudo_ok := true |}
                    (Binary64.round 0.7)))
  = [0; 1; 2; 3; 4; 5; 6]%nat /\
  Z.max 1 (Qfloor (inject_Z 10 * Binary64.round 0.7)) = 6.
Proof. repeat split; vm_compute; congruence. Qed.

(** C3 (amended). With at least one core (and fewer than [2^53], which
    a double holds exactly) and a fraction in (0, 1], the number of workers
    is [max(1, floor(p))] where [p] is the product of the cores and the
    fraction rounded to double precision: [stress_cpu] starts exactly that
    many, at least one, all the cores when the fraction is 1, and 4 of 8
    cores at fraction 0.5. That number is [max(1, floor(cores * fraction))]
    for the exact product when the rounding leaves the product unchanged,
    and otherwise that or one more. *)
Theorem cores_to_use_spec (h : host) (fraction : Q) :
  1 <= cpu_count h < 2 ^ 53 -> (0 < fraction)%Q -> (fraction <= 1)%Q ->
  cores_to_use (cpu_count h) fraction
    = Z.max 1 (Qfloor (Binary64.round (inject_Z (cpu_count h) * fraction))) /\
  Z.of_nat (length (spawned (trace (stress_cpu h fraction))))
    = cores_to_use (cpu_count h) fraction /\
  1 <= cores_to_use (cpu_count h) fraction /\
  ((fraction == 1)%Q -> cores_to_use (cpu_count h) fraction = cpu_count h) /\
  ((Binary64.round (inject_Z (cpu_count h) * fraction)
    == inject_Z (cpu_count h) * fraction)%Q ->
   cores_to_use (cpu_count h) fraction
   = Z.max 1 (Qfloor (inject_Z (cpu_count h) * fraction))) /\
  Z.max 1 (Qfloor (inject_Z (cpu_count h) * fraction))
    <= cores_to_use (cpu_count h) fraction
    <= Z.max 1 (Qfloor (inject_Z (cpu_count h) * fraction)) + 1 /\
  cores_to_use 8 0.5 = 4.
Proof.
  intros Hc Hf0 Hf1.
  assert (Hp : (0 <= inject_Z (cpu_count h) * fraction)%Q).
  { apply Qmult_le_0_compat; [|lra].
    change 0%Q with (inject_Z 0). rewrite <- Zle_Qle. lia. }
  assert (Hdef : cores_to_use (cpu_count h) fraction
                 = Z.max 1 (Qfloor (Binary64.round
                                      (inject_Z (cpu_count h) * fraction)))).
  { unfold cores_to_use. rewrite sized_exact_operand by (lia || lra).
    rewrite int_of_float_floor by (apply round_nonneg, Hp). reflexivity. }
  split; [exact Hdef|]. split; [|split; [|split; [|split; [|split]]]].
  - rewrite stress_cpu_run. cbn [trace].
    rewrite spawned_map_spawn, length_seq. unfold cores_to_use. lia.
  - unfold cores_to_use. lia.
  - intros Heq. rewrite Hdef.
    assert (E : (Binary64.round (inject_Z (cpu_count h) * fraction)
                 == inject_Z (cpu_count h))%Q).
    { transitivity (Binary64.round (inject_Z (cpu_count h))).
      - apply round_comp. rewrite Heq. ring.
      - apply round_Z. lia. }
    rewrite (Qfloor_comp _ _ E), Qfloor_Z. lia.
  - intros Hex. rewrite Hdef, (Qfloor_comp _ _ Hex). reflexivity.
  - unfold cores_to_use.
    destruct (sized_bounds (cpu_count h) fraction) as [Hb _]; [lia | lra | lra |].
    lia.
  - vm_compute. reflexivity.
Qed.

Lemma cores_to_use_spec_witness :
  cores_to_use 8 0.5 = Z.max 1 (Qfloor (Binary64.round (inject_Z 8 * 0.5))) /\
  Z.of_nat (length (spawned (trace (stress_cpu Demo.machine 0.5)))) = 4.
Proof.
  assert (Hc : 1 <= cpu_count Demo.machine < 2 ^ 53) by (cbn; lia).
  assert (H0 : (0 < 0.5)%Q) by reflexivity.
  assert (H1 : (0.5 <= 1)%Q) by discriminate.
  destruct (cores_to_use_spec Demo.machine 0.5 Hc H0 H1) as (Hd & Hn & _).
  split; [exact Hd |]. rewrite Hn. vm_compute. reflexivity.
Defined.

(** ** Duty cycle *)

Import DutyCycleCpuStress.

Lemma round_unit_interval (x : Q) :
  (0 <= x <= 1)%Q -> (0 <= Binary64.round x <= 1)%Q.
Proof.
  intros [H0 H1]. split; [apply round_nonneg, H0|].
  rewrite <- (round_Z 1) by lia. apply round_mono. exact H1.
Qed.

Lemma scaled_le (x i : Q) : (0 <= x <= 1)%Q -> (0 <= i)%Q -> (0 <= x * i <= i)%Q.
Proof.
  intros [H0 H1] Hi. split; [apply Qmult_le_0_compat; assumption|].
  assert (Hd : (0 <= (1 - x) * i)%Q) by (apply Qmult_le_0_compat; lra).
  assert (Hd' : ((1 - x) * i == i - x * i)%Q) by ring.
  lra.
Qed.

(** The double nearest to 0.06 on an interval of 10: the phases are
    0.6000000000000001 and 9.399999999999999 seconds, which add up to less
    than 10, as real numbers and as the double sum. *)
Lemma duty_cycle_sum_inexact :
  (0 <= Binary64.round 0.06 <= 1)%Q /\ (0 < 10)%Q /\
  cpu_worker_cycle (Binary64.round 0.06) 10
  = [Burn (active_time (Binary64.round 0.06) 10);
     Sleep (idle_time (Binary64.round 0.06) 10)] /\
  (active_time (Binary64.round 0.06) 10
   == 5404319552844595 # 9007199254740992)%Q /\
  (idle_time (Binary64.round 0.06) 10
   == 1322932390540083 # 140737488355328)%Q /\
  (active_time (Binary64.round 0.06) 10 + idle_time (Binary64.round 0.06) 10
   < 10)%Q /\
  (Binary64.add (active_time (Binary64.round 0.06) 10)
                (idle_time (Binary64.round 0.06) 10) < 10)%Q /\
  (cycle_length (cpu_worker_cycle (Binary64.round 0.06) 10) < 10)%Q.
Proof. repeat split; vm_compute; congruence. Qed.

(** C4 (amended). For a fraction in [[0, 1]] and a positive interval, a
    turn of the worker loop burns for [fraction * interval] and then
    sleeps for [(1 - fraction) * interval], each operation rounded to
    double precision (the sleep is skipped only when that length is zero).
    Both lengths lie between zero and the interval. Their sum is the
    interval up to the rounding: it differs from it by at most
    [interval * 2^-51 + 2^-1073], and is exactly the interval when the three
    operations are exact. With interval 10 and fraction 0.3 the lengths
    are exactly 3 and 7. *)
Theorem duty_cycle_split (a interval : Q) :
  (0 <= a <= 1)%Q -> (0 < interval)%Q ->
  (cpu_worker_cycle a interval
     = [Burn (active_time a interval); Sleep (idle_time a interval)] \/
   (cpu_worker_cycle a interval = [Burn (active_time a interval)] /\
    (idle_time a interval == 0)%Q)) /\
  active_time a interval = Binary64.round (a * interval) /\
  idle_time a interval = Binary64.round (Binary64.round (1 - a) * interval) /\
  (0 <= active_time a interval <= Binary64.round interval)%Q /\
  (0 <= idle_time a interval <= Binary64.round interval)%Q /\
  (interval - (interval * 2 ^ (-51) + 2 ^ (-1073))
   <= active_time a interval + idle_time a interval)%Q /\
  (active_time a interval + idle_time a interval
   <= interval + (interval * 2 ^ (-51) + 2 ^ (-1073)))%Q /\
  ((Binary64.round (a * interval) == a * interval)%Q ->
   (Binary64.round (1 - a) == 1 - a)%Q ->
   (Binary64.round ((1 - a) * interval) == (1 - a) * interval)%Q ->
   (active_time a interval + idle_time a interval == interval)%Q /\
   (cycle_length (cpu_worker_cycle a interval) == interval)%Q) /\
  cpu_worker_cycle (Binary64.round 0.3) 10
    = [Burn (active_time (Binary64.round 0.3) 10);
       Sleep (idle_time (Binary64.round 0.3) 10)] /\
  (active_time (Binary64.round 0.3) 10 == 3)%Q /\
  (idle_time (Binary64.round 0.3) 10 == 7)%Q /\
  (cycle_length (cpu_worker_cycle (Binary64.round 0.3) 10) == 10)%Q.
Proof.
  intros [Ha0 Ha1] Hi.
  assert (Hr : (0 <= Binary64.round (1 - a) <= 1)%Q)
    by (apply round_unit_interval; lra).
  assert (Hai : (0 <= a * interval <= interval)%Q)
    by (apply scaled_le; [split; assumption | lra]).
  assert (Hri : (0 <= Binary64.round (1 - a) * interval <= interval)%Q)
    by (apply scaled_le; [exact Hr | lra]).
  assert (Hact : (0 <= active_time a interval <= Binary64.round interval)%Q).
  { unfold active_time, Binary64.mul.
    split; [apply round_nonneg | apply round_mono]; apply Hai. }
  assert (Hidl : (0 <= idle_time a interval <= Binary64.round interval)%Q).
  { unfold idle_time, Binary64.mul, Binary64.sub.
    split; [apply round_nonneg | apply round_mono]; apply Hri. }
  split; [|split; [reflexivity|split; [reflexivity|split; [exact Hact|
          split; [exact Hidl|]]]]].
  - unfold cpu_worker_cycle.
    destruct (Py.lt 0 (idle_time a interval)) eqn:E; [left; reflexivity|].
    right. split; [reflexivity|].
    apply lt_false_iff in E. apply Qle_antisym; [exact E | apply Hidl].
  - assert (Hsum :
      (interval - (interval * 2 ^ (-51) + 2 ^ (-1073))
       <= active_time a interval + idle_time a interval)%Q /\
      (active_time a interval + idle_time a interval
       <= interval + (interval * 2 ^ (-51) + 2 ^ (-1073)))%Q).
    { unfold active_time, idle_time, Binary64.mul, Binary64.sub.
      destruct (round_error (a * interval)) as [A1 A2]; [apply Hai|].
      destruct (round_error (1 - a)) as [R1 R2]; [lra|].
      destruct (round_error (Binary64.round (1 - a) * interval)) as [I1 I2];
        [apply Hri|].
      assert (E51 : (2 ^ (-51) == 4 * 2 ^ (-53))%Q) by reflexivity.
      assert (E73 : (2 ^ (-1073) == 4 * 2 ^ (-1075))%Q) by reflexivity.
      assert (Hue : (2 ^ (-1075) <= 2 ^ (-53))%Q)
        by (apply Qpower_le_compat_l; [lia | discriminate]).
      pose proof (pow2_pos (-1075)) as He.
      rewrite E51, E73.
      remember (2 ^ (-53))%Q as u eqn:Eu. remember (2 ^ (-1075))%Q as eta eqn:Eeta.
      remember (Binary64.round (1 - a)) as r eqn:Er.
      remember (Binary64.round (a * interval)) as A eqn:EA.
      remember (Binary64.round (r * interval)) as I eqn:EI.
      assert (P1 : (a * interval * u <= interval * u)%Q)
        by (apply Qmult_le_compat_r; [apply Hai | lra]).
      assert (P2 : (r * interval * u <= interval * u)%Q)
        by (apply Qmult_le_compat_r; [apply Hri | lra]).
      assert (P3 : ((1 - a - ((1 - a) * u + eta)) * interval <= r * interval)%Q)
        by (apply Qmult_le_compat_r; lra).
      assert (P4 : (r * interval <= (1 - a + ((1 - a) * u + eta)) * interval)%Q)
        by (apply Qmult_le_compat_r; lra).
      assert (P5 : ((1 - a) * u * interval <= interval * u)%Q).
      { assert (Hq : (0 <= a * (u * interval))%Q).
        { apply Qmult_le_0_compat; [exact Ha0|]. apply Qmult_le_0_compat; lra. }
        assert (Eq5 : ((1 - a) * u * interval
                       == interval * u - a * (u * interval))%Q) by ring.
        lra. }
      assert (P6 : (eta * interval <= u * interval)%Q)
        by (apply Qmult_le_compat_r; lra).
      assert (E3 : ((1 - a - ((1 - a) * u + eta)) * interval
                    == interval - a * interval
                       - (1 - a) * u * interval - eta * interval)%Q) by ring.
      assert (E4 : ((1 - a + ((1 - a) * u + eta)) * interval
                    == interval - a * interval
                       + (1 - a) * u * interval + eta * interval)%Q) by ring.
      assert (E6 : (u * interval == interval * u)%Q) by ring.
      split; lra. }
    split; [apply Hsum|]. split; [apply Hsum|]. split.
    + intros E1 E2 E3.
      assert (Es : (active_time a interval + idle_time a interval == interval)%Q).
      { unfold active_time, idle_time, Binary64.mul, Binary64.sub.
        rewrite E1.
        transitivity (a * interval + Binary64.round ((1 - a) * interval))%Q.
        - apply Qplus_comp; [reflexivity|]. apply round_comp. rewrite E2. reflexivity.
        - rewrite E3. ring. }
      split; [exact Es|].
      unfold cpu_worker_cycle.
      destruct (Py.lt 0 (idle_time a interval)) eqn:E.
      * unfold cycle_length; cbn [fold_right phase_length].
        transitivity (active_time a interval + idle_time a interval)%Q;
          [ring | exact Es].
      * apply lt_false_iff in E.
        assert (Hz : (idle_time a interval == 0)%Q)
          by (apply Qle_antisym; [exact E | apply Hidl]).
        unfold cycle_length; cbn [fold_right phase_length].
        transitivity (active_time a interval + idle_time a interval)%Q;
          [rewrite Hz; ring | exact Es].
    + repeat split; vm_compute; congruence.
Qed.

Lemma duty_cycle_split_witness :
  (0 <= active_time (1 # 4) 8 <= Binary64.round 8)%Q /\
  (active_time (1 # 4) 8 + idle_time (1 # 4) 8
   <= 8 + (8 * 2 ^ (-51) + 2 ^ (-1073)))%Q.
Proof.
  assert (Ha : (0 <= 1 # 4 <= 1)%Q) by (split; discriminate).
  assert (Hi : (0 < 8)%Q) by reflexivity.
  destruct (duty_cycle_split (1 # 4) 8 Ha Hi) as (_ & _ & _ & Hb & _ & _ & Hs & _).
  split; [exact Hb | exact Hs].
Defined.

(** ** Average power *)

(** The report divides by a negative duration instead of refusing it. *)
Lemma average_power_negative_elapsed :
  (-1 <= 0)%Z /\
  (forall e, average_power 2 (-1) <> Raise e) /\
  average_power 2 (-1) = Ok (2 / inject_Z (-1))%Q /\
  (2 / inject_Z (-1) == -2)%Q.
Proof.
  split; [discriminate|]. split; [intros e; discriminate|].
  split; reflexivity.
Qed.

(** C5 (amended). The power is [joules / elapsed] for every elapsed time
    other than zero, negative ones included (nothing checks the sign), and
    the division raises [ZeroDivisionError] exactly when the elapsed time
    is zero. *)
Theorem average_power_spec (joules : Q) (elapsed : Z) :
  (0 < elapsed -> average_power joules elapsed = Ok (joules / inject_Z elapsed)%Q) /\
  (elapsed < 0 -> average_power joules elapsed = Ok (joules / inject_Z elapsed)%Q) /\
  (average_power joules elapsed = Raise ZeroDivisionError <-> elapsed = 0).
Proof.
  unfold average_power, Py.truediv.
  destruct (Z.eqb_spec elapsed 0) as [->|Hne].
  - repeat split; try lia; reflexivity.
  - repeat split; try reflexivity; try discriminate. intros ->. lia.
Qed.

(** ** Delta over all domains *)

Section ComputeRaplDelta.
Implicit Types before after : gmap string Q.

(** What the loop leaves under each key. *)
Lemma compute_rapl_delta_lookup before after (k : string) :
  compute_rapl_delta before after !! k =
  match after !! k, before !! k with
  | Some va, Some vb => Some (va - vb)%Q
  | _, _ => None
  end.
Proof.
  unfold compute_rapl_delta. revert k.
  apply (map_fold_weak_ind
           (fun (r m : gmap string Q) => forall k : string,
              r !! k = match m !! k, before !! k with
                       | Some va, Some vb => Some (va - vb)%Q
                       | _, _ => None
                       end)).
  - intros k. now rewrite !lookup_empty.
  - intros i x m r Hfresh IH k.
    destruct (decide (i = k)) as [->|Hne].
    + rewrite lookup_insert_eq.
      destruct (before !! k) as [vb|] eqn:Hb.
      * now rewrite lookup_insert_eq.
      * rewrite IH, Hfresh. reflexivity.
    + rewrite (lookup_insert_ne m) by exact Hne.
      destruct (before !! i) as [vb|] eqn:Hb.
      * rewrite lookup_insert_ne by exact Hne. apply IH.
      * apply IH.
Qed.

Lemma compute_rapl_delta_dom before after :
  dom (compute_rapl_delta before after) = dom before ∩ dom after.
Proof.
  apply set_eq. intros k.
  rewrite elem_of_intersection, !elem_of_dom, compute_rapl_delta_lookup.
  destruct (after !! k), (before !! k); split;
    try (intros [[? ?] [? ?]]); try (intros [? ?]);
    try discriminate; eauto.
Qed.
End ComputeRaplDelta.

(** C2. The keys of the multi-domain delta are exactly those present in
    both samples, and each is mapped to [after[k] - before[k]], with no
    correction for a wrapped counter; the documented scenario keeps only
    "core", at 12.5 - 10.0 = 2.5. *)
Theorem compute_rapl_delta_spec (before after : gmap string Q) :
  dom (compute_rapl_delta before after) = dom before ∩ dom after /\
  (forall (k : string) (va vb : Q),
      after !! k = Some va -> before !! k = Some vb ->
      compute_rapl_delta before after !! k = Some (va - vb)%Q) /\
  compute_rapl_delta {[ "core" := 10.0%Q; "dram" := 5.0%Q ]}
                     {[ "core" := 12.5%Q; "pkg" := 1.0%Q ]}
    = {[ "core" := (12.5 - 10.0)%Q ]} /\
  (12.5 - 10.0 == 2.5)%Q.
Proof.
  split; [apply compute_rapl_delta_dom|]. split; [|split].
  - intros k va vb Ha Hb. now rewrite compute_rapl_delta_lookup, Ha, Hb.
  - apply map_eq. intros k. rewrite compute_rapl_delta_lookup.
    destruct (decide (k = "core"%string)) as [->|Hcore]; [reflexivity|].
    rewrite lookup_singleton_ne by congruence.
    destruct (decide (k = "pkg"%string)) as [->|Hpkg]; [reflexivity|].
    rewrite lookup_insert_ne, lookup_singleton_ne by congruence. reflexivity.
  - reflexivity.
Qed.

(** C9. The delta of a sample with itself has the keys of the sample and
    maps each of them to zero. *)
Theorem compute_rapl_delta_self (s : gmap string Q) :
  dom (compute_rapl_delta s s) = dom s /\
  (forall (k : string) (v : Q),
      s !! k = Some v ->
      exists d, compute_rapl_delta s s !! k = Some d /\ (d == 0)%Q) /\
  (forall (k : string) (d : Q),
      compute_rapl_delta s s !! k = Some d -> (d == 0)%Q).
Proof.
  split.
  { rewrite compute_rapl_delta_dom. apply set_eq. intros k.
    rewrite elem_of_intersection. tauto. }
  split.
  - intros k v Hk. exists (v - v)%Q.
    rewrite compute_rapl_delta_lookup, Hk. split; [reflexivity|ring].
  - intros k d. rewrite compute_rapl_delta_lookup.
    destruct (s !! k) as [v|]; [|discriminate].
    intros [= <-]. ring.
Qed.

(** ** Discovery of one domain *)

Lemma find_rapl_domain_cons (e : rapl_entry) (fs : powercap) (d : string) :
  find_rapl_domain (e :: fs) d =
  if name_matches d e then Ok (path e)
  else if name_skipped d e then find_rapl_domain fs d
  else Raise PermissionError.
Proof.
  unfold name_matches, name_skipped. cbn [find_rapl_domain].
  destruct (name e) as [|s|s]; cbn; [reflexivity..|].
  destruct (String.eqb (Py.strip s) d); reflexivity.
Qed.

Lemma name_matches_not_skipped (d : string) (e : rapl_entry) :
  name_matches d e = true -> name_skipped d e = false.
Proof.
  unfold name_matches, name_skipped. destruct (name e); try discriminate.
  now intros ->.
Qed.

Lemma find_rapl_domain_found (fs : powercap) (d p : string) :
  find_rapl_domain fs d = Ok p <->
  exists fs1 e fs2,
    fs = fs1 ++ e :: fs2 /\ forallb (name_skipped d) fs1 = true /\
    name_matches d e = true /\ path e = p.
Proof.
  induction fs as [|e0 fs IH].
  - split; [discriminate|]. intros (fs1 & e & fs2 & H & _). now destruct fs1.
  - rewrite find_rapl_domain_cons.
    destruct (name_matches d e0) eqn:Hm.
    + split.
      * intros [= <-]. exists [], e0, fs. repeat split; assumption.
      * intros (fs1 & e & fs2 & Hfs & Hskip & Hme & Hp).
        destruct fs1 as [|e1 fs1]; cbn in Hfs; injection Hfs as -> Hfs.
        -- now subst.
        -- cbn in Hskip. rewrite (name_matches_not_skipped _ _ Hm) in Hskip.
           discriminate.
    + destruct (name_skipped d e0) eqn:Hs.
      * rewrite IH. split.
        -- intros (fs1 & e & fs2 & -> & Hskip & Hme & Hp).
           exists (e0 :: fs1), e, fs2. cbn. rewrite Hs. repeat split; assumption.
        -- intros (fs1 & e & fs2 & Hfs & Hskip & Hme & Hp).
           destruct fs1 as [|e1 fs1]; cbn in Hfs; injection Hfs as -> Hfs.
           ++ congruence.
           ++ cbn in Hskip. rewrite Hs in Hskip.
              exists fs1, e, fs2. repeat split; assumption.
      * split; [discriminate|].
        intros (fs1 & e & fs2 & Hfs & Hskip & Hme & Hp).
        destruct fs1 as [|e1 fs1]; cbn in Hfs; injection Hfs as -> Hfs.
        -- congruence.
        -- cbn in Hskip. rewrite Hs in Hskip. discriminate.
Qed.

Lemma find_rapl_domain_not_found (fs : powercap) (d : string) :
  find_rapl_domain fs d = Raise (RuntimeError (not_found_message d)) <->
  forallb (name_skipped d) fs = true.
Proof.
  induction fs as [|e0 fs IH]; [cbn; tauto|].
  rewrite find_rapl_domain_cons. cbn [forallb].
  destruct (name_matches d e0) eqn:Hm.
  - rewrite (name_matches_not_skipped _ _ Hm). cbn. split; discriminate.
  - destruct (name_skipped d e0); cbn; [exact IH|]. split; discriminate.
Qed.

(** The entry the specification would find through its identifier is not
    found by the code: a directory without a name file is passed over. *)
Lemma find_rapl_domain_no_identifier_fallback :
  Sysfs.read (name Demo.nameless_entry) = Raise FileNotFoundError /\
  discover_domain_by_spec [Demo.nameless_entry] (path Demo.nameless_entry)
    = Ok (path Demo.nameless_entry) /\
  find_rapl_domain [Demo.nameless_entry] (path Demo.nameless_entry)
    = Raise (RuntimeError (not_found_message (path Demo.nameless_entry))) /\
  find_rapl_domain [Demo.nameless_entry] (Py.basename (path Demo.nameless_entry))
    = Raise (RuntimeError
               (not_found_message (Py.basename (path Demo.nameless_entry)))).
Proof. repeat split. Qed.

(** C6 (amended). [find_rapl_domain] returns the path of the first scanned
    entry whose name file can be read and whose content, stripped of
    surrounding whitespace, is the requested name, compared exactly and
    with case; an entry without a name file is passed over and is never
    found through its identifier; the search raises the not-found
    [RuntimeError] exactly when it passes over every entry. *)
Theorem find_rapl_domain_spec (fs : powercap) (domain_name : string) :
  (forall p : string,
      find_rapl_domain fs domain_name = Ok p <->
      exists fs1 e fs2,
        fs = fs1 ++ e :: fs2 /\
        forallb (name_skipped domain_name) fs1 = true /\
        name_matches domain_name e = true /\ path e = p) /\
  (find_rapl_domain fs domain_name
     = Raise (RuntimeError (not_found_message domain_name)) <->
   forallb (name_skipped domain_name) fs = true) /\
  (forall e : rapl_entry,
      name e = Absent ->
      name_skipped domain_name e = true /\ name_matches domain_name e = false) /\
  (forall (e : rapl_entry) (s : string),
      name e = Readable s ->
      (name_matches domain_name e = true <-> Py.strip s = domain_name) /\
      (name_skipped domain_name e = true <-> Py.strip s <> domain_name)) /\
  find_rapl_domain (sysfs0 Demo.machine) "core"
    = Ok "/sys/class/powercap/intel-rapl:0:0"%string /\
  find_rapl_domain (sysfs0 Demo.machine) "Core"
    = Raise (RuntimeError (not_found_message "Core")).
Proof.
  split; [intros p; apply find_rapl_domain_found|].
  split; [apply find_rapl_domain_not_found|].
  split; [|split; [|split; reflexivity]].
  - intros e He. unfold name_skipped, name_matches. now rewrite He.
  - intros e s He. unfold name_skipped, name_matches. rewrite He.
    rewrite negb_true_iff. split.
    + apply String.eqb_eq.
    + apply String.eqb_neq.
Qed.

(** ** Scan of all domains *)

Section ForPaths.
Variable reading : rapl_entry -> result (option (string * Q)).

Let body := fun (e : rapl_entry) (rapl_data : gmap string Q) =>
  r ← reading e; Ok (store r rapl_data).






End ForPaths.

(** *** Text of digits always converts *)









(** *** The two scans *)



(** ** Sessions *)

(** *** Traces *)

Lemma for_each_pure {A} (xs : list A) (body : A -> M unit) (f : A -> list event) :
  (forall x, body x = mkM (f x) (Ok tt)) ->
  for_each xs body = mkM (flat_map f xs) (Ok tt).
Proof.
  intros Hbody. induction xs as [|x xs IH]; [reflexivity|].
  cbn [for_each flat_map]. rewrite Hbody, IH. reflexivity.
Qed.

Lemma flat_map_singleton {A B} (f : A -> B) (xs : list A) :
  flat_map (fun x => [f x]) xs = map f xs.
Proof. induction xs as [|x xs IH]; [reflexivity|]. cbn. now rewrite IH. Qed.

Lemma stop_processes_run (h : host) (ws : list nat) :
  stop_processes h ws = mkM (stop_trace h ws) (Ok tt).
Proof.
  unfold stop_processes, stop_trace.
  rewrite (for_each_pure ws
             (fun p => if is_alive h p then emit (EvTerminate p) else mret tt)
             (fun p => if is_alive h p then [EvTerminate p] else []))
    by (intros p; destruct (is_alive h p); reflexivity).
  rewrite (for_each_pure ws (fun p => emit (EvJoin p (Some 1)))
             (fun p => [EvJoin p (Some 1)])) by reflexivity.
  rewrite flat_map_singleton. reflexivity.
Qed.

Lemma spawned_app (l1 l2 : list event) :
  spawned (l1 ++ l2) = spawned l1 ++ spawned l2.
Proof.
  induction l1 as [|ev l1 IH]; [reflexivity|].
  destruct ev; cbn; rewrite IH; reflexivity.
Qed.

Lemma spawned_no_spawn (l : list event) :
  forallb (fun ev => negb (is_spawn ev)) l = true -> spawned l = [].
Proof.
  induction l as [|ev l IH]; [reflexivity|]. cbn.
  intros H. apply andb_prop in H. destruct H as [Hev Hl].
  destruct ev; try discriminate; now apply IH.
Qed.

Lemma spawned_passive (l : list event) :
  forallb is_passive l = true -> spawned l = [].
Proof.
  intros H. apply spawned_no_spawn.
  rewrite forallb_forall in *. intros ev Hin. specialize (H ev Hin).
  now destruct ev.
Qed.

Lemma spawned_stop_trace (h : host) (ws : list nat) : spawned (stop_trace h ws) = [].
Proof.
  apply spawned_no_spawn. apply forallb_forall. intros ev Hin.
  unfold stop_trace in Hin. apply in_app_or in Hin. destruct Hin as [Hin|Hin].
  - apply in_flat_map in Hin. destruct Hin as (p & _ & Hin).
    destruct (is_alive h p); [|contradiction].
    destruct Hin as [<-|[]]. reflexivity.
  - apply in_map_iff in Hin. destruct Hin as (p & <- & _). reflexivity.
Qed.

(** Where an event occurs once, a cut at that event is the cut. *)
Lemma cut_unique {A} (x : A) (a b l1 l2 : list A) :
  ~ In x a -> ~ In x b ->
  a ++ x :: b = l1 ++ x :: l2 -> l1 = a /\ l2 = b.
Proof.
  revert l1. induction a as [|y a IH]; intros l1 Ha Hb Heq.
  - destruct l1 as [|z l1]; cbn in Heq.
    + injection Heq as <-. now split.
    + injection Heq as <- ->. exfalso. apply Hb, in_elt.
  - destruct l1 as [|z l1]; cbn in Heq.
    + injection Heq as -> _. exfalso. apply Ha. now left.
    + injection Heq as <- Heq.
      destruct (IH l1) as [-> ->]; auto.
      intros Hin. apply Ha. now right.
Qed.

Lemma passive_no_sample (pt : sample_point) (l : list event) :
  forallb is_passive l = true -> ~ In (EvEnergySample pt) l.
Proof.
  intros H Hin. rewrite forallb_forall in H. now specialize (H _ Hin).
Qed.

Lemma stop_trace_no_sample (pt : sample_point) (h : host) (ws : list nat) :
  ~ In (EvEnergySample pt) (stop_trace h ws).
Proof.
  unfold stop_trace. intros Hin. apply in_app_or in Hin. destruct Hin as [Hin|Hin].
  - apply in_flat_map in Hin. destruct Hin as (p & _ & Hin).
    destruct (is_alive h p); [|contradiction]. now destruct Hin as [?|[]].
  - apply in_map_iff in Hin. now destruct Hin as (p & ? & _).
Qed.

Lemma spawns_no_sample (pt : sample_point) (ws : list nat) :
  ~ In (EvEnergySample pt) (map EvSpawn ws).
Proof. intros Hin. apply in_map_iff in Hin. now destruct Hin as (p & ? & _). Qed.

(** *** Order of the phases *)

Lemma cut_after {A} (x y : A) (a b l1 l2 : list A) :
  ~ In x a -> x <> y ->
  a ++ y :: b = l1 ++ x :: l2 -> In y l1.
Proof.
  revert l1. induction a as [|z a IH]; intros l1 Ha Hxy Heq.
  - destruct l1 as [|z l1]; cbn in Heq; injection Heq as Hz Heq.
    + congruence.
    + left. congruence.
  - destruct l1 as [|z' l1]; cbn in Heq; injection Heq as Hz Heq.
    + exfalso. apply Ha. left. congruence.
    + right. apply IH with (l1 := l1); auto.
      intros Hin. apply Ha. now right.
Qed.

Lemma baseline_precedes_prefix (tr rest : list event) :
  baseline_precedes_workers (tr ++ rest) -> baseline_precedes_workers tr.
Proof.
  intros H l1 l2 ->. apply (H l1 (l2 ++ rest)).
  now rewrite <- app_assoc.
Qed.

Lemma workers_follow_prefix (tr rest : list event) :
  workers_follow_baseline (tr ++ rest) -> workers_follow_baseline tr.
Proof.
  intros H l1 w l2 ->. apply (H l1 w (l2 ++ rest)).
  now rewrite <- app_assoc.
Qed.

Lemma workers_follow_no_spawn (tr : list event) :
  spawned tr = [] -> workers_follow_baseline tr.
Proof.
  intros H l1 w l2 ->. rewrite spawned_app in H. cbn in H.
  apply app_eq_nil in H. destruct H as [_ H]. discriminate.
Qed.

Lemma orders_no_sample (h : host) (tr : list event) :
  (forall pt, ~ In (EvEnergySample pt) tr) ->
  baseline_precedes_workers tr /\ workers_stopped_before_final h tr.
Proof.
  intros H. split; intros l1 l2 ->; exfalso;
    eapply H; apply in_elt.
Qed.

Section SessionTrace.
Variable h : host.
Variables pre mid : list event.
Variable ws : list nat.
Hypothesis pre_passive : forallb is_passive pre = true.
Hypothesis mid_passive : forallb is_passive mid = true.

Let tail : list event :=
  map EvSpawn ws ++ mid ++ stop_trace h ws ++ [EvEnergySample Final].
Let front : list event :=
  pre ++ [EvEnergySample Baseline] ++ map EvSpawn ws ++ mid ++ stop_trace h ws.

Lemma session_trace_front : session_trace h pre mid ws = front ++ [EvEnergySample Final].
Proof. unfold session_trace, front. now rewrite <- !app_assoc. Qed.

Lemma session_trace_tail :
  session_trace h pre mid ws = pre ++ EvEnergySample Baseline :: tail.
Proof. reflexivity. Qed.

Lemma baseline_not_in_tail : ~ In (EvEnergySample Baseline) tail.
Proof.
  unfold tail. rewrite !in_app_iff. intros [H|[H|[H|H]]].
  - now apply spawns_no_sample in H.
  - now apply passive_no_sample in H.
  - now apply stop_trace_no_sample in H.
  - destruct H as [H|[]]. discriminate.
Qed.

Lemma final_not_in_front : ~ In (EvEnergySample Final) front.
Proof.
  unfold front. rewrite !in_app_iff. intros [H|[H|[H|[H|H]]]].
  - now apply passive_no_sample in H.
  - destruct H as [H|[]]. discriminate.
  - now apply spawns_no_sample in H.
  - now apply passive_no_sample in H.
  - now apply stop_trace_no_sample in H.
Qed.

Lemma spawned_session : spawned (session_trace h pre mid ws) = ws.
Proof.
  unfold session_trace. rewrite !spawned_app.
  rewrite (spawned_passive pre), (spawned_passive mid) by assumption.
  rewrite spawned_map_spawn, spawned_stop_trace. cbn. now rewrite app_nil_r.
Qed.

Lemma session_baseline_precedes :
  baseline_precedes_workers (session_trace h pre mid ws).
Proof.
  intros l1 l2 Heq. rewrite session_trace_tail in Heq.
  apply cut_unique in Heq.
  - destruct Heq as [-> _]. now apply spawned_passive.
  - now apply passive_no_sample.
  - apply baseline_not_in_tail.
Qed.

Lemma session_workers_follow :
  workers_follow_baseline (session_trace h pre mid ws).
Proof.
  intros l1 w l2 Heq. rewrite session_trace_tail in Heq.
  apply cut_after in Heq; [exact Heq| |discriminate].
  intros Hin. pose proof pre_passive as Hp. rewrite forallb_forall in Hp.
  now specialize (Hp _ Hin).
Qed.

Lemma session_stopped (tr rest : list event) :
  tr ++ rest = session_trace h pre mid ws ->
  workers_stopped_before_final h tr.
Proof.
  intros Hfull l1 l2 ->.
  rewrite session_trace_front, <- app_assoc in Hfull. cbn in Hfull.
  symmetry in Hfull. apply cut_unique in Hfull;
    [|apply final_not_in_front|intros []].
  destruct Hfull as [-> Hnil]. apply app_eq_nil in Hnil. destruct Hnil as [-> ->].
  split; [|reflexivity].
  intros w Hw. fold (front ++ [EvEnergySample Final]) in Hw.
  rewrite <- session_trace_front, spawned_session in Hw.
  unfold front, stop_trace. rewrite !in_app_iff. split.
  - do 5 right. apply in_map_iff. now exists w.
  - intros Halive. do 4 right. left. apply in_flat_map. exists w.
    rewrite Halive. split; [exact Hw | now left].
Qed.
End SessionTrace.

(** *** stresscpumore.py *)

Ltac run_step :=
  cbn [mbind M_bind mret M_ret outcome trace lift emit measure_cpu sample_energy].

Ltac close_prefix :=
  eexists; unfold session_trace; cbn [app]; rewrite <- ?app_assoc; cbn [app];
  reflexivity.

Lemma stress_main_rejected (a : Q) (duration : Z) (h : host) :
  (Py.le 0 a && Py.le a 1)%bool = false ->
  StressCpuMore.main a duration h
  = mkM [EvPrint StressCpuMore.fraction_error] (Ok None).
Proof. intros H. unfold StressCpuMore.main. rewrite H. reflexivity. Qed.

Lemma stress_main_prefix (a : Q) (duration : Z) (h : host) :
  (Py.le 0 a && Py.le a 1)%bool = true ->
  exists rest,
    trace (StressCpuMore.main a duration h) ++ rest =
    session_trace h
      [EvMeasureCpu "before" 1]
      [EvSleep 2; EvMeasureCpu "during" 1; EvSleep (Z.max 0 (duration - 2))]
      (seq 0 (Z.to_nat (cores_to_use (cpu_count h) a))).
Proof.
  intros Hacc. unfold StressCpuMore.main. rewrite Hacc. cbn [negb].
  run_step.
  destruct (find_rapl_domain (sysfs0 h) "core") as [p|e]; run_step;
    [|eexists; reflexivity].
  destruct (read_max_energy_j (sysfs0 h) p) as [max_j|e]; run_step;
    [|eexists; reflexivity].
  destruct (cpu_percent h "before") as [u0|e]; run_step;
    [|close_prefix].
  destruct (read_energy_j (sysfs0 h) p) as [e0|e]; run_step;
    [|close_prefix].
  rewrite stress_cpu_run. run_step.
  destruct (cpu_percent h "during") as [u1|e]; run_step;
    [|close_prefix].
  rewrite stop_processes_run. run_step.
  destruct (read_energy_j (sysfs1 h) p) as [e1|e]; run_step;
    exists []; unfold session_trace; cbn [app]; rewrite <- ?app_assoc; cbn [app];
    rewrite ?app_nil_r; reflexivity.
Qed.

(** *** features/dutycyclecpustress.py *)

Lemma start_stress_processes_run (h : host) (a interval : Q) (duration : Z) :
  start_stress_processes h a interval duration =
  mkM (map EvSpawn (seq 0 (Z.to_nat (cpu_count h))))
      (Ok (seq 0 (Z.to_nat (cpu_count h)))).
Proof.
  unfold start_stress_processes. cbv zeta. unfold mbind, M_bind.
  destruct (for_each_spawn_trace (seq 0 (Z.to_nat (cpu_count h)))) as [Ht Ho].
  rewrite Ho, Ht. cbn. now rewrite app_nil_r.
Qed.

Lemma discover_cases (h : host) :
  (exists p m, discover h = mkM [] (Ok (Some (p, m)))) \/
  (exists e, discover h = mkM [EvWarning e] (Ok None)).
Proof.
  unfold discover.
  destruct (find_rapl_domain (sysfs0 h) "core") as [p|e]; cbn; [|right; eauto].
  destruct (read_max_energy_j (sysfs0 h) p) as [m|e]; cbn; [left|right]; eauto.
Qed.

Ltac no_sample_here :=
  intros pt; rewrite ?in_app_iff; cbn [In]; intros Hin;
  repeat match goal with
         | H : _ \/ _ |- _ => destruct H
         | H : In _ (map EvSpawn _) |- _ => now apply spawns_no_sample in H
         | H : In _ (stop_trace _ _) |- _ => now apply stop_trace_no_sample in H
         | H : False |- _ => destruct H
         | H : _ = EvEnergySample _ |- _ => discriminate H
         end.

(** Without a counter the measured part takes no sample. *)
Lemma measure_quiet (a interval : Q) (duration : Z) (h : host)
  (rapl : option (string * Q)) :
  has_counter rapl = false ->
  forall pt, ~ In (EvEnergySample pt) (trace (measure a interval duration h rapl)).
Proof.
  intros Hr. unfold measure.
  assert (Hz : forall pt fs, sample_or_zero pt fs rapl = mkM [] (Ok 0%Q)).
  { intros pt fs. unfold sample_or_zero. destruct rapl as [[p m]|]; [|reflexivity].
    cbn in Hr. now rewrite Hr. }
  run_step. destruct (cpu_percent h "before") as [u0|e]; run_step;
    [|no_sample_here].
  rewrite !Hz. run_step. rewrite start_stress_processes_run. run_step.
  unfold try_finally. rewrite stop_processes_run. run_step.
  destruct (cpu_percent h "during") as [u1|e]; run_step; [|no_sample_here].
  destruct rapl as [[p m]|]; [cbn in Hr; rewrite Hr|]; run_step; no_sample_here.
Qed.

(** With a counter it goes through the phases of a session, as far as it
    gets. *)
Lemma measure_prefix (a interval : Q) (duration : Z) (h : host)
  (p : string) (m : Q) :
  Py.truthy p = true ->
  exists rest,
    trace (measure a interval duration h (Some (p, m))) ++ rest
    = session_trace h [EvMeasureCpu "before" 1]
        [EvMeasureCpu "during" (inject_Z duration)]
        (seq 0 (Z.to_nat (cpu_count h))).
Proof.
  intros Hp. unfold measure, sample_or_zero. rewrite Hp. run_step.
  destruct (cpu_percent h "before") as [u0|e]; run_step; [|close_prefix].
  destruct (read_energy_j (sysfs0 h) p) as [e0|e]; run_step; [|close_prefix].
  rewrite start_stress_processes_run. run_step.
  unfold try_finally. rewrite stop_processes_run. run_step.
  destruct (cpu_percent h "during") as [u1|e]; run_step; [|close_prefix].
  destruct (read_energy_j (sysfs1 h) p) as [e1|e]; run_step;
    exists []; unfold session_trace; cbn [app]; rewrite <- ?app_assoc; cbn [app];
    rewrite ?app_nil_r; reflexivity.
Qed.

(** The runs of [main]: a refusal, or the discovery followed by the
    measured part. *)
Lemma duty_main_cases (a interval : Q) (duration : Z) (h : host) :
  (exists msg, DutyCycleCpuStress.main a interval duration h
               = mkM [EvPrint msg] (Ok None)) \/
  (exists p m,
      discover h = mkM [] (Ok (Some (p, m))) /\
      trace (DutyCycleCpuStress.main a interval duration h)
      = trace (measure a interval duration h (Some (p, m)))) \/
  (exists e,
      discover h = mkM [EvWarning e] (Ok None) /\
      trace (DutyCycleCpuStress.main a interval duration h)
      = EvWarning e :: trace (measure a interval duration h None)).
Proof.
  unfold DutyCycleCpuStress.main.
  destruct (negb (Py.le 0 a && Py.le a 1)); [left; eexists; reflexivity|].
  destruct (Py.le interval 0 || (duration <=? 0))%bool;
    [left; eexists; reflexivity|].
  right. destruct (discover_cases h) as [(p & m & Hd)|(e & Hd)].
  - left. exists p, m. split; [exact Hd|]. now rewrite Hd.
  - right. exists e. split; [exact Hd|]. now rewrite Hd.
Qed.

Lemma duty_main_orders (a interval : Q) (duration : Z) (h : host) :
  baseline_precedes_workers (trace (DutyCycleCpuStress.main a interval duration h)) /\
  workers_stopped_before_final h (trace (DutyCycleCpuStress.main a interval duration h)).
Proof.
  destruct (duty_main_cases a interval duration h)
    as [(msg & ->)|[(p & m & _ & ->)|(e & _ & ->)]].
  - apply orders_no_sample. cbn. no_sample_here.
  - destruct (Py.truthy p) eqn:Hp.
    + destruct (measure_prefix a interval duration h p m Hp) as [rest Hrest].
      split.
      * apply (baseline_precedes_prefix _ rest). rewrite Hrest.
        now apply session_baseline_precedes.
      * eapply session_stopped; [| |exact Hrest]; reflexivity.
    + apply orders_no_sample. now apply measure_quiet.
  - apply orders_no_sample. intros pt [H|H]; [discriminate|].
    revert H. now apply measure_quiet.
Qed.

Lemma duty_main_follow (a interval : Q) (duration : Z) (h : host) (p : string) (m : Q) :
  discover h = mkM [] (Ok (Some (p, m))) -> Py.truthy p = true ->
  workers_follow_baseline (trace (DutyCycleCpuStress.main a interval duration h)).
Proof.
  intros Hd Hp.
  destruct (duty_main_cases a interval duration h)
    as [(msg & ->)|[(p' & m' & Hd' & ->)|(e & Hd' & _)]].
  - now apply workers_follow_no_spawn.
  - rewrite Hd in Hd'. injection Hd' as <- <-.
    destruct (measure_prefix a interval duration h p m Hp) as [rest Hrest].
    apply (workers_follow_prefix _ rest). rewrite Hrest.
    now apply session_workers_follow.
  - rewrite Hd in Hd'. discriminate.
Qed.

(** *** Order of sampling and load *)

(** On a host without a core domain dutycyclecpustress.py warns, takes no
    energy sample and still starts its eight workers: the workers run with
    no baseline sample before them. *)
Lemma duty_session_without_baseline :
  spawned (trace (DutyCycleCpuStress.main 0.5 10 60 coreless_machine)) = seq 0 8 /\
  (forall pt, ~ In (EvEnergySample pt)
                (trace (DutyCycleCpuStress.main 0.5 10 60 coreless_machine))) /\
  ~ workers_follow_baseline
      (trace (DutyCycleCpuStress.main 0.5 10 60 coreless_machine)) /\
  outcome (DutyCycleCpuStress.main 0.5 10 60 coreless_machine) = Ok None.
Proof.
  assert (Hq : forall pt, ~ In (EvEnergySample pt)
                 (trace (DutyCycleCpuStress.main 0.5 10 60 coreless_machine))).
  { intros pt. vm_compute. intuition discriminate. }
  split; [reflexivity|]. split; [exact Hq|]. split; [|reflexivity].
  intros H.
  assert (Hin : In (EvSpawn 0)
                  (trace (DutyCycleCpuStress.main 0.5 10 60 coreless_machine))).
  { vm_compute. tauto. }
  apply in_split in Hin as (l1 & l2 & E).
  apply (Hq Baseline). rewrite E. apply in_or_app. left. exact (H l1 0%nat l2 E).
Qed.

(** C8 (amended). In every run of the two single-domain sessions a
    baseline energy sample, when one is taken, comes before the first
    start of a worker, and when the final sample is taken every worker
    started in the run has been joined, those still alive having been sent
    [terminate] before, and nothing is done to a worker after it. In
    stresscpumore.py no worker starts without a baseline sample before it,
    and neither in dutycyclecpustress.py once the core domain has been
    discovered; when the discovery fails, that script takes no energy
    sample at all. On the demonstration host both sessions run through all
    their phases. *)
Theorem session_sampling_order (h : host) :
  (forall (a : Q) (duration : Z),
      baseline_precedes_workers (trace (StressCpuMore.main a duration h)) /\
      workers_follow_baseline (trace (StressCpuMore.main a duration h)) /\
      workers_stopped_before_final h (trace (StressCpuMore.main a duration h))) /\
  (forall (a interval : Q) (duration : Z),
      baseline_precedes_workers
        (trace (DutyCycleCpuStress.main a interval duration h)) /\
      workers_stopped_before_final h
        (trace (DutyCycleCpuStress.main a interval duration h)) /\
      (forall p m, discover h = mkM [] (Ok (Some (p, m))) -> Py.truthy p = true ->
                   workers_follow_baseline
                     (trace (DutyCycleCpuStress.main a interval duration h))) /\
      (forall e, discover h = mkM [EvWarning e] (Ok None) ->
                 forall pt, ~ In (EvEnergySample pt)
                              (trace (DutyCycleCpuStress.main a interval duration h)))) /\
  trace (StressCpuMore.main 0.5 10 Demo.machine)
    = session_trace Demo.machine
        [EvMeasureCpu "before" 1]
        [EvSleep 2; EvMeasureCpu "during" 1; EvSleep 8]
        [0; 1; 2; 3]%nat /\
  (exists d, outcome (StressCpuMore.main 0.5 10 Demo.machine) = Ok (Some d) /\
             (d == 4.5)%Q) /\
  trace (DutyCycleCpuStress.main 0.3 10 60 Demo.machine)
    = session_trace Demo.machine
        [EvMeasureCpu "before" 1]
        [EvMeasureCpu "during" 60]
        (seq 0 8).
Proof.
  split; [|split; [|split; [|split]]].
  - intros a duration.
    destruct (Py.le 0 a && Py.le a 1)%bool eqn:Hacc.
    + destruct (stress_main_prefix a duration h Hacc) as [rest Hrest].
      split; [|split].
      * apply (baseline_precedes_prefix _ rest). rewrite Hrest.
        now apply session_baseline_precedes.
      * apply (workers_follow_prefix _ rest). rewrite Hrest.
        now apply session_workers_follow.
      * eapply session_stopped; [| |exact Hrest]; reflexivity.
    + rewrite (stress_main_rejected a duration h Hacc). cbn [trace].
      split; [|split].
      * intros l1 l2 Heq. destruct l1 as [|ev [|ev' l1]]; discriminate.
      * now apply workers_follow_no_spawn.
      * intros l1 l2 Heq. destruct l1 as [|ev [|ev' l1]]; discriminate.
  - intros a interval duration.
    destruct (duty_main_orders a interval duration h) as [H1 H2].
    split; [exact H1|]. split; [exact H2|]. split.
    + intros p m. apply duty_main_follow.
    + intros e Hd pt.
      destruct (duty_main_cases a interval duration h)
        as [(msg & ->)|[(p & m & Hd' & _)|(e' & _ & ->)]].
      * cbn. intuition discriminate.
      * rewrite Hd in Hd'. discriminate.
      * intros [H|H]; [discriminate|]. revert H. now apply measure_quiet.
  - reflexivity.
  - eexists. split; reflexivity.
  - reflexivity.
Qed.

(** *** Refusal of a fraction out of range *)

Lemma range_closed_false (a : Q) :
  ~ (0 <= a /\ a <= 1)%Q -> (Py.le 0 a && Py.le a 1)%bool = false.
Proof.
  intros H. destruct (Py.le 0 a) eqn:H0; [|reflexivity].
  destruct (Py.le a 1) eqn:H1; [|reflexivity].
  exfalso. apply H. split; now apply le_true_iff.
Qed.

Lemma range_open_false (a : Q) :
  ~ (0 < a /\ a <= 1)%Q -> (Py.lt 0 a && Py.le a 1)%bool = false.
Proof.
  intros H. destruct (Py.lt 0 a) eqn:H0; [|reflexivity].
  destruct (Py.le a 1) eqn:H1; [|reflexivity].
  exfalso. apply H. split; [now apply lt_true_iff | now apply le_true_iff].
Qed.

(** The fraction 0 lies outside (0, 1], yet stresscpumore.py accepts it and
    starts a worker. *)
Lemma zero_fraction_starts_worker :
  ~ (0 < 0 /\ 0 <= 1)%Q /\
  spawned (trace (StressCpuMore.main 0 10 Demo.machine)) = [0%nat] /\
  ~ In (EvPrint StressCpuMore.fraction_error)
       (trace (StressCpuMore.main 0 10 Demo.machine)).
Proof.
  split; [intros [H _]; discriminate H|]. split; [reflexivity|].
  cbv. intuition discriminate.
Qed.

(** C7 (amended). stresscpumore.py refuses every fraction outside [[0, 1]]
    and bwdatatransfer.py every fraction outside (0, 1]: the run prints the
    range error and returns, with no sample taken and no worker started.
    The fraction 0 passes the check of stresscpumore.py, which then sizes
    the load at one worker. *)
Theorem invalid_fraction_rejected (a : Q) (duration workers : Z) (h : host) :
  (~ (0 <= a /\ a <= 1)%Q ->
   StressCpuMore.main a duration h
   = mkM [EvPrint StressCpuMore.fraction_error] (Ok None)) /\
  (~ (0 < a /\ a <= 1)%Q ->
   BwDataTransfer.main a duration workers h
   = mkM [EvPrint BwDataTransfer.fraction_error] (Ok None)) /\
  (~ (0 <= a /\ a <= 1)%Q -> spawned (trace (StressCpuMore.main a duration h)) = []) /\
  (~ (0 < a /\ a <= 1)%Q ->
   spawned (trace (BwDataTransfer.main a duration workers h)) = []) /\
  spawned (trace (stress_cpu h 0)) = [0%nat] /\
  StressCpuMore.main 1.5 10 Demo.machine
  = mkM [EvPrint StressCpuMore.fraction_error] (Ok None) /\
  BwDataTransfer.main 0 30 4 Demo.machine
  = mkM [EvPrint BwDataTransfer.fraction_error] (Ok None).
Proof.
  assert (Hs : ~ (0 <= a /\ a <= 1)%Q ->
               StressCpuMore.main a duration h
               = mkM [EvPrint StressCpuMore.fraction_error] (Ok None)).
  { intros H. apply stress_main_rejected, range_closed_false, H. }
  assert (Hb : ~ (0 < a /\ a <= 1)%Q ->
               BwDataTransfer.main a duration workers h
               = mkM [EvPrint BwDataTransfer.fraction_error] (Ok None)).
  { intros H. unfold BwDataTransfer.main.
    rewrite (range_open_false a H). reflexivity. }
  split; [exact Hs|]. split; [exact Hb|].
  split; [intros H; now rewrite (Hs H)|].
  split; [intros H; now rewrite (Hb H)|].
  split; [|split; reflexivity].
  rewrite stress_cpu_run. cbn [trace]. rewrite spawned_map_spawn.
  rewrite cores_to_use_zero. reflexivity.
Qed.

(** * Further properties of the code *)

(** ** Multi-domain delta against the single-domain one *)

Lemma delta_energy_wrap_cases (prev curr max : Q) :
  ((prev <= curr)%Q /\ delta_energy_wrap prev curr max = (curr - prev)%Q) \/
  ((curr < prev)%Q /\ delta_energy_wrap prev curr max = ((max - prev) + curr)%Q).
Proof.
  unfold delta_energy_wrap. destruct (Py.ge curr prev) eqn:E.
  - left. split; [now apply ge_true_iff|reflexivity].
  - right. split; [now apply ge_false_iff|reflexivity].
Qed.

(** X2. On a domain present in both samples, with readings within the
    range of the counter, the multi-domain delta is [after - before]: the
    same as the single-domain delta as long as the reading did not
    decrease; after a wrap it is negative, where the single-domain delta
    stays between zero and the range. *)
Theorem compute_rapl_delta_no_wrap_correction
  (before after : gmap string Q) (k : string) (vb va max_j : Q) :
  before !! k = Some vb -> after !! k = Some va ->
  (0 <= vb <= max_j)%Q -> (0 <= va <= max_j)%Q ->
  compute_rapl_delta before after !! k = Some (va - vb)%Q /\
  ((vb <= va)%Q -> delta_energy_wrap vb va max_j = (va - vb)%Q) /\
  ((va < vb)%Q ->
   (va - vb < 0)%Q /\ (0 <= delta_energy_wrap vb va max_j <= max_j)%Q /\
   forall d, compute_rapl_delta before after !! k = Some d ->
             (d < delta_energy_wrap vb va max_j)%Q).
Proof.
  intros Hb Ha Hvb Hva.
  assert (Hd : compute_rapl_delta before after !! k = Some (va - vb)%Q)
    by now rewrite compute_rapl_delta_lookup, Ha, Hb.
  split; [exact Hd|split].
  - intros Hle. destruct (delta_energy_wrap_cases vb va max_j) as [[_ ->]|[H _]];
      [reflexivity|lra].
  - intros Hlt.
    destruct (delta_energy_wrap_cases vb va max_j) as [[H _]|[_ E]]; [lra|].
    rewrite E. split; [lra|]. split; [lra|].
    intros d Hd'. rewrite Hd in Hd'. injection Hd' as <-. lra.
Qed.

Lemma compute_rapl_delta_no_wrap_correction_witness :
  compute_rapl_delta {[ "core" := 95%Q ]} {[ "core" := 5%Q ]} !! "core"
    = Some (5 - 95)%Q /\
  (5 - 95 < 0)%Q /\ (0 <= delta_energy_wrap 95 5 100 <= 100)%Q.
Proof.
  assert (Hb : ({[ "core" := 95%Q ]} : gmap string Q) !! "core" = Some 95%Q)
    by reflexivity.
  assert (Ha : ({[ "core" := 5%Q ]} : gmap string Q) !! "core" = Some 5%Q)
    by reflexivity.
  assert (Hvb : (0 <= 95 <= 100)%Q) by (split; discriminate).
  assert (Hva : (0 <= 5 <= 100)%Q) by (split; discriminate).
  destruct (compute_rapl_delta_no_wrap_correction _ _ "core" 95 5 100 Hb Ha Hvb Hva)
    as (Hd & _ & Hw).
  split; [exact Hd|]. destruct (Hw eq_refl) as (Hn & Hr & _).
  split; [exact Hn | exact Hr].
Defined.

(** ** Bounds of the worker count *)

(** X4. With at least one core (and fewer than [2^53]) and fractions
    [0 <= f1 <= f2 <= 1], the worker count is at least 1, does not decrease
    when the fraction grows and never exceeds the number of cores; it is
    more than the requested share [cores * f1] minus one core and, once
    that share reaches one core, at most the share plus one core. *)
Theorem cores_to_use_bounds (cores : Z) (f1 f2 : Q) :
  1 <= cores < 2 ^ 53 -> (0 <= f1)%Q -> (f1 <= f2)%Q -> (f2 <= 1)%Q ->
  1 <= cores_to_use cores f1 /\
  cores_to_use cores f1 <= cores_to_use cores f2 /\
  cores_to_use cores f2 <= cores /\
  (inject_Z cores * f1 < inject_Z (cores_to_use cores f1) + 1)%Q /\
  ((1 <= inject_Z cores * f1)%Q ->
   (inject_Z (cores_to_use cores f1) <= inject_Z cores * f1 + 1)%Q).
Proof.
  intros Hc H0 H12 H1.
  assert (Hoi : (0 <= Binary64.of_int cores)%Q) by (apply of_int_nonneg; lia).
  assert (Hmono : (Binary64.mul (Binary64.of_int cores) f1
                   <= Binary64.mul (Binary64.of_int cores) f2)%Q).
  { unfold Binary64.mul. apply round_mono.
    assert (Hd : (0 <= Binary64.of_int cores * (f2 - f1))%Q)
      by (apply Qmult_le_0_compat; lra).
    assert (Hd' : (Binary64.of_int cores * (f2 - f1)
                   == Binary64.of_int cores * f2 - Binary64.of_int cores * f1)%Q)
      by ring.
    lra. }
  destruct (sized_bounds cores f1) as [[Hlo Hhi] _]; [lia | lra | lra |].
  destruct (sized_bounds cores f2) as [_ Htop]; [lia | lra | lra |].
  pose proof (Qlt_floor (inject_Z cores * f1)) as Hlt.
  pose proof (Qfloor_le (inject_Z cores * f1)) as Hfl.
  split; [unfold cores_to_use; lia|]. split; [|split; [|split]].
  - unfold cores_to_use.
    rewrite !sized_floor by (lia || lra).
    pose proof (Qfloor_resp_le _ _ Hmono). lia.
  - unfold cores_to_use. lia.
  - eapply Qlt_le_trans; [exact Hlt|].
    change (inject_Z (Qfloor (inject_Z cores * f1) + 1)
            <= inject_Z (cores_to_use cores f1) + inject_Z 1)%Q.
    rewrite <- inject_Z_plus, <- Zle_Qle. unfold cores_to_use. lia.
  - intros Hone. pose proof (Qfloor_resp_le _ _ Hone) as Hf1.
    change 1%Q with (inject_Z 1) in Hf1. rewrite Qfloor_Z in Hf1.
    apply Qle_trans with (inject_Z (Qfloor (inject_Z cores * f1) + 1)).
    + rewrite <- Zle_Qle. unfold cores_to_use. lia.
    + rewrite inject_Z_plus. change (inject_Z 1) with 1%Q. lra.
Qed.

Lemma cores_to_use_bounds_witness :
  1 <= cores_to_use 12 (Binary64.round 0.6) /\
  cores_to_use 12 (Binary64.round 0.6) <= cores_to_use 12 (Binary64.round 0.9) /\
  cores_to_use 12 (Binary64.round 0.9) <= 12.
Proof.
  assert (Hc : 1 <= 12 < 2 ^ 53) by lia.
  assert (H0 : (0 <= Binary64.round 0.6)%Q) by (vm_compute; discriminate).
  assert (H12 : (Binary64.round 0.6 <= Binary64.round 0.9)%Q)
    by (vm_compute; discriminate).
  assert (H1 : (Binary64.round 0.9 <= 1)%Q) by (vm_compute; discriminate).
  destruct (cores_to_use_bounds 12 _ _ Hc H0 H12 H1) as (A & B & C & _).
  exact (conj A (conj B C)).
Defined.

(** ** Teardown *)

Lemma joined_app (l1 l2 : list event) : joined (l1 ++ l2) = joined l1 ++ joined l2.
Proof.
  induction l1 as [|ev l1 IH]; [reflexivity|].
  destruct ev; cbn; rewrite IH; reflexivity.
Qed.

Lemma terminated_app (l1 l2 : list event) :
  terminated (l1 ++ l2) = terminated l1 ++ terminated l2.
Proof.
  induction l1 as [|ev l1 IH]; [reflexivity|].
  destruct ev; cbn; rewrite IH; reflexivity.
Qed.

Lemma joined_joins (o : option Z) (ws : list nat) :
  joined (map (fun p => EvJoin p o) ws) = ws.
Proof. induction ws as [|w ws IH]; [reflexivity|]. cbn. now rewrite IH. Qed.

Lemma terminated_joins (o : option Z) (ws : list nat) :
  terminated (map (fun p => EvJoin p o) ws) = [].
Proof. induction ws as [|w ws IH]; [reflexivity|]. exact IH. Qed.

Lemma terminations_projections (h : host) (ws : list nat) :
  joined (flat_map (fun p => if is_alive h p then [EvTerminate p] else []) ws) = [] /\
  terminated (flat_map (fun p => if is_alive h p then [EvTerminate p] else []) ws)
  = List.filter (is_alive h) ws.
Proof.
  induction ws as [|w ws [IHj IHt]]; [split; reflexivity|].
  cbn [flat_map List.filter]. rewrite joined_app, terminated_app, IHj, IHt.
  destruct (is_alive h w); split; reflexivity.
Qed.

(** X5. [stop_processes] never fails and starts nothing: it sends
    [terminate] to exactly the handles that are still alive, in order, then
    joins every handle once, in order, with a timeout of one second, dead
    ones included; every [terminate] is sent before the first join. *)
Theorem stop_processes_spec (h : host) (ws : list nat) :
  outcome (stop_processes h ws) = Ok tt /\
  terminated (trace (stop_processes h ws)) = List.filter (is_alive h) ws /\
  joined (trace (stop_processes h ws)) = ws /\
  spawned (trace (stop_processes h ws)) = [] /\
  (exists before_join after_terminate,
      trace (stop_processes h ws) = before_join ++ after_terminate /\
      joined before_join = [] /\ terminated after_terminate = []) /\
  (forall w o, In (EvJoin w o) (trace (stop_processes h ws)) -> o = Some 1).
Proof.
  rewrite stop_processes_run. cbn [trace outcome].
  destruct (terminations_projections h ws) as [Hj Ht].
  split; [reflexivity|]. split; [|split; [|split; [|split]]].
  - unfold stop_trace. now rewrite terminated_app, Ht, terminated_joins, app_nil_r.
  - unfold stop_trace. now rewrite joined_app, Hj, joined_joins.
  - apply spawned_stop_trace.
  - eexists _, _. split; [reflexivity|]. split; [exact Hj|apply terminated_joins].
  - intros w o Hin. unfold stop_trace in Hin. apply in_app_or in Hin.
    destruct Hin as [Hin|Hin].
    + apply in_flat_map in Hin. destruct Hin as (p & _ & Hin).
      destruct (is_alive h p); [|contradiction]. now destruct Hin as [?|[]].
    + apply in_map_iff in Hin. destruct Hin as (p & Heq & _). congruence.
Qed.

(** ** Reading the domain that discovery returned *)

Lemma lookup_path_some (fs : powercap) (p : string) :
  (exists e, In e fs /\ path e = p) ->
  exists e, lookup_path fs p = Some e /\ In e fs /\ path e = p.
Proof.
  induction fs as [|e0 fs IH]; intros (e & Hin & Hp); [destruct Hin|].
  cbn [lookup_path]. destruct (String.eqb (path e0) p) eqn:E.
  - apply String.eqb_eq in E. exists e0. repeat split; [now left|exact E].
  - destruct Hin as [->|Hin].
    + apply String.eqb_neq in E. contradiction.
    + destruct IH as (e' & Hl & Hin' & Hp'); [now exists e|].
      exists e'. repeat split; [exact Hl|now right|exact Hp'].
Qed.

Lemma int_of_str_outcome (s : string) :
  (exists n, Py.int_of_str s = Ok n) \/ Py.int_of_str s = Raise ValueError.
Proof.
  unfold Py.int_of_str.
  destruct (list_ascii_of_string (Py.strip s)) as [|c cs]; [now right|].
  destruct (Ascii.eqb c "+"); [|destruct (Ascii.eqb c "-")].
  - destruct (Py.digits_value 0 false cs); [left; eauto|now right].
  - destruct (Py.digits_value 0 false cs); cbn; [left; eauto|now right].
  - destruct (Py.digits_value 0 false (c :: cs)); [left; eauto|now right].
Qed.

(** X6. A path returned by [find_rapl_domain] is one of the scanned
    directories, so [read_energy_j] on it depends on the counter file
    alone: [FileNotFoundError] when the file is missing, [PermissionError]
    when it is protected, [ValueError] when its content is not an integer,
    and otherwise the integer divided by 10^6; it raises nothing else. *)
Theorem read_energy_after_discovery (fs : powercap) (domain_name p : string) :
  find_rapl_domain fs domain_name = Ok p ->
  exists e,
    In e fs /\ path e = p /\
    match energy_uj e with
    | Absent => read_energy_j fs p = Raise FileNotFoundError
    | Protected _ => read_energy_j fs p = Raise PermissionError
    | Readable s =>
        (exists n, Py.int_of_str (Py.strip s) = Ok n /\
                   read_energy_j fs p = Ok (uj_to_j n)) \/
        (Py.int_of_str (Py.strip s) = Raise ValueError /\
         read_energy_j fs p = Raise ValueError)
    end.
Proof.
  intros Hfind. apply find_rapl_domain_found in Hfind.
  destruct Hfind as (fs1 & e0 & fs2 & -> & _ & _ & Hp).
  destruct (lookup_path_some (fs1 ++ e0 :: fs2) p) as (e & Hl & Hin & Hpe).
  { exists e0. split; [apply in_elt|exact Hp]. }
  exists e. split; [exact Hin|]. split; [exact Hpe|].
  unfold read_energy_j, open_under. rewrite Hl.
  destruct (energy_uj e) as [|s|s]; cbn; [reflexivity..|].
  destruct (int_of_str_outcome (Py.strip s)) as [[n Hn]|Hn]; rewrite Hn; cbn.
  - left. now exists n.
  - now right.
Qed.

Lemma read_energy_after_discovery_witness :
  exists e,
    In e (sysfs0 Demo.machine) /\
    path e = "/sys/class/powercap/intel-rapl:0:0"%string /\
    match energy_uj e with
    | Absent =>
        read_energy_j (sysfs0 Demo.machine) "/sys/class/powercap/intel-rapl:0:0"
        = Raise FileNotFoundError
    | Protected _ =>
        read_energy_j (sysfs0 Demo.machine) "/sys/class/powercap/intel-rapl:0:0"
        = Raise PermissionError
    | Readable s =>
        (exists n, Py.int_of_str (Py.strip s) = Ok n /\
                   read_energy_j (sysfs0 Demo.machine)
                     "/sys/class/powercap/intel-rapl:0:0" = Ok (uj_to_j n)) \/
        (Py.int_of_str (Py.strip s) = Raise ValueError /\
         read_energy_j (sysfs0 Demo.machine)
           "/sys/class/powercap/intel-rapl:0:0" = Raise ValueError)
    end.
Proof.
  apply (read_energy_after_discovery (sysfs0 Demo.machine) "core"). reflexivity.
Defined.

(** ** What the scan through [sudo] can hold *)

Section ForPathsOrigin.
Variable reading : rapl_entry -> result (option (string * Q)).

End ForPathsOrigin.







(** ** The report of the powers *)

(** X8. The report loop of bwdatatransfer.py succeeds on an empty delta
    whatever the duration; with a duration other than zero it reports
    [v / duration] under every key of the delta; with a zero duration and a
    delta that is not empty it raises [ZeroDivisionError]. *)
Theorem report_power_spec (delta : gmap string Q) (elapsed : Z) :
  BwDataTransfer.report_power ∅ elapsed = Ok ∅ /\
  (elapsed <> 0 ->
   BwDataTransfer.report_power delta elapsed
   = Ok ((fun v => (v / inject_Z elapsed)%Q) <$> delta)) /\
  (elapsed = 0 -> delta <> ∅ ->
   BwDataTransfer.report_power delta elapsed = Raise ZeroDivisionError).
Proof.
  split; [reflexivity|]. split.
  - intros Hne. unfold BwDataTransfer.report_power.
    apply (map_fold_weak_ind
             (fun (r : result (gmap string Q)) (m : gmap string Q) =>
                r = Ok ((fun v => (v / inject_Z elapsed)%Q) <$> m))).
    + now rewrite fmap_empty.
    + intros k v m r Hfresh ->. cbn. unfold average_power, Py.truediv.
      destruct (Z.eqb_spec elapsed 0) as [E|_]; [contradiction|].
      cbn. now rewrite fmap_insert.
  - intros -> Hne. unfold BwDataTransfer.report_power.
    assert (H : (delta = ∅ /\
                 map_fold (fun (k : string) (v : Q) (acc : result (gmap string Q)) =>
                             r ← acc; power ← average_power v 0;
                             Ok (<[k := power]> r)) (Ok ∅) delta = Ok ∅) \/
                map_fold (fun (k : string) (v : Q) (acc : result (gmap string Q)) =>
                            r ← acc; power ← average_power v 0;
                            Ok (<[k := power]> r)) (Ok ∅) delta
                = Raise ZeroDivisionError).
    { apply (map_fold_weak_ind
               (fun (r : result (gmap string Q)) (m : gmap string Q) =>
                  (m = ∅ /\ r = Ok ∅) \/ r = Raise ZeroDivisionError)).
      - now left.
      - intros k v m r Hfresh [[_ ->] | ->]; right; reflexivity. }
    destruct H as [[H _]|H]; [contradiction|exact H].
Qed.

(** ** The run of bwdatatransfer.py *)









(** ** Workers across the runs of the single-domain sessions *)







(** ** A host without the core domain *)

(** X13. When the discovery of the core domain raises, stresscpumore.py
    ends with that error before it measures or starts anything, while
    dutycyclecpustress.py records a warning and goes on: it takes no energy
    sample at any point and never reports a delta. *)
Theorem discovery_failure (a interval : Q) (duration : Z) (h : host) (e : exn) :
  find_rapl_domain (sysfs0 h) "core" = Raise e ->
  ((Py.le 0 a && Py.le a 1)%bool = true ->
   StressCpuMore.main a duration h = mkM [] (Raise e)) /\
  ((Py.le 0 a && Py.le a 1)%bool = true ->
   (Py.le interval 0 || (duration <=? 0))%bool = false ->
   trace (DutyCycleCpuStress.main a interval duration h)
   = EvWarning e :: trace (measure a interval duration h None) /\
   (forall pt, ~ In (EvEnergySample pt)
                 (trace (DutyCycleCpuStress.main a interval duration h))) /\
   (forall d, outcome (DutyCycleCpuStress.main a interval duration h)
              <> Ok (Some d))).
Proof.
  intros Hfind. split.
  - intros Hacc. unfold StressCpuMore.main. rewrite Hacc, Hfind. reflexivity.
  - intros Hacc Hpos. unfold DutyCycleCpuStress.main. rewrite Hacc, Hpos.
    cbn [negb]. unfold discover. rewrite Hfind. run_step.
    split; [reflexivity|]. split.
    + intros pt [H|H]; [discriminate|]. revert H. now apply measure_quiet.
    + intros d. unfold measure, sample_or_zero. run_step.
      destruct (cpu_percent h "before") as [u0|e0]; run_step; [|discriminate].
      rewrite start_stress_processes_run. run_step.
      unfold try_finally. rewrite stop_processes_run. run_step.
      destruct (cpu_percent h "during") as [u1|e1]; run_step; discriminate.
Qed.

Lemma discovery_failure_witness :
  StressCpuMore.main 0.5 10 coreless_machine
  = mkM [] (Raise (RuntimeError (not_found_message "core"))) /\
  forall pt, ~ In (EvEnergySample pt)
               (trace (DutyCycleCpuStress.main 0.5 10 60 coreless_machine)).
Proof.
  destruct (discovery_failure 0.5 10 60 coreless_machine
              (RuntimeError (not_found_message "core")) eq_refl) as [Hs Hd].
  split; [exact (Hs eq_refl)|].
  exact (proj1 (proj2 (Hd eq_refl eq_refl))).
Defined.

(** ** Core frequencies *)

(** *** The core index is never read from the path *)

Lemma list_ascii_of_string_app (s1 s2 : string) :
  list_ascii_of_string (String.append s1 s2)
  = list_ascii_of_string s1 ++ list_ascii_of_string s2.
Proof.
  induction s1 as [|c s1 IH]; [reflexivity|].
  change (String.append (String c s1) s2) with (String c (String.append s1 s2)).
  cbn [list_ascii_of_string app]. now rewrite IH.
Qed.

Lemma split_from_nonempty (sep : list ascii) (skip : nat) (cur s : list ascii) :
  PyText.split_from sep skip cur s <> [].
Proof.
  revert skip cur. induction s as [|c s IH]; intros skip cur; [discriminate|].
  cbn [PyText.split_from]. destruct skip; [|apply IH].
  destruct (PyText.is_prefix sep (c :: s)); [discriminate|apply IH].
Qed.

Lemma last_cons_nonempty {A} (x d : A) (l : list A) :
  l <> [] -> List.last (x :: l) d = List.last l d.
Proof. destruct l; [congruence|reflexivity]. Qed.

Lemma last_map {A B} (f : A -> B) (l : list A) (d : A) :
  List.last (map f l) (f d) = f (List.last l d).
Proof.
  induction l as [|x l IH]; [reflexivity|].
  destruct l as [|y l]; [reflexivity|]. exact IH.
Qed.

(** An occurrence of "/cpu" that starts before the final
    "/cpufreq/scaling_cur_freq" ends before it. *)
Lemma cpu_separator_inside (pre : list ascii) :
  pre <> [] ->
  PyText.is_prefix (list_ascii_of_string "/cpu")
    (pre ++ list_ascii_of_string "/cpufreq/scaling_cur_freq") = true ->
  (4 <= length pre)%nat.
Proof.
  intros Hne H.
  destruct pre as [|c1 [|c2 [|c3 [|c4 pre]]]]; [congruence| | | |cbn; lia];
    exfalso; cbn [app list_ascii_of_string PyText.is_prefix] in H;
    repeat (apply andb_prop in H; destruct H as [? H]);
    repeat match goal with
           | Hc : Ascii.eqb ?a ?b = true |- _ =>
               first [ now vm_compute in Hc | clear Hc ]
           end.
Qed.

Lemma split_cpu_last (pre : list ascii) (skip : nat) (cur d : list ascii) :
  (skip <= length pre)%nat ->
  List.last
    (PyText.split_from (list_ascii_of_string "/cpu") skip cur
       (pre ++ list_ascii_of_string "/cpufreq/scaling_cur_freq")) d
  = list_ascii_of_string "freq/scaling_cur_freq".
Proof.
  revert skip cur. induction pre as [|c pre IH]; intros skip cur Hskip.
  - assert (skip = 0)%nat as -> by (cbn in Hskip; lia). reflexivity.
  - cbn [app PyText.split_from]. destruct skip as [|k].
    + destruct (PyText.is_prefix (list_ascii_of_string "/cpu")
                  (c :: pre ++ list_ascii_of_string "/cpufreq/scaling_cur_freq"))
        eqn:E.
      * rewrite last_cons_nonempty by apply split_from_nonempty.
        apply IH.
        pose proof (cpu_separator_inside (c :: pre) ltac:(discriminate) E) as Hlen.
        cbn in Hlen |- *. lia.
      * apply IH. lia.
    + apply IH. cbn in Hskip. lia.
Qed.

Lemma cpu_of_path_fails (pre : string) :
  CoreFreq.cpu_of_path (String.append pre "/cpufreq/scaling_cur_freq")
  = Raise ValueError.
Proof.
  unfold CoreFreq.cpu_of_path.
  assert (E : PyText.last_piece
                (PyText.split "/cpu" (String.append pre "/cpufreq/scaling_cur_freq"))
              = "freq/scaling_cur_freq"%string).
  { unfold PyText.last_piece, PyText.split.
    change EmptyString with (string_of_list_ascii []).
    rewrite last_map, list_ascii_of_string_app.
    rewrite split_cpu_last by apply Nat.le_0_l. reflexivity. }
  rewrite E. reflexivity.
Qed.

(** X14. In features/corefreq.py the core index is parsed from what
    follows the last "/cpu" of the path, and for every path that ends in
    "/cpufreq/scaling_cur_freq", as every match of the glob does, that is
    "freq": the parse raises [ValueError], the file is skipped, and
    [get_core_frequencies] returns the empty dictionary whatever the files
    hold; [print_all_core_frequencies] then reports that nothing could be
    read. *)
Theorem corefreq_reads_nothing (files : cpufreq) :
  (forall pf, In pf files ->
              exists pre, fst pf = String.append pre "/cpufreq/scaling_cur_freq") ->
  (forall pf, In pf files -> CoreFreq.cpu_of_path (fst pf) = Raise ValueError) /\
  CoreFreq.get_core_frequencies files = Ok ∅ /\
  CoreFreq.print_all_core_frequencies files = Ok None.
Proof.
  intros Hshape.
  assert (Hcpu : forall pf, In pf files ->
                            CoreFreq.cpu_of_path (fst pf) = Raise ValueError).
  { intros pf Hin. destruct (Hshape pf Hin) as [pre ->]. apply cpu_of_path_fails. }
  assert (Hget : CoreFreq.get_core_frequencies files = Ok ∅).
  { unfold CoreFreq.get_core_frequencies. clear Hshape.
    induction files as [|pf files IH]; [reflexivity|].
    cbn [CoreFreq.get_core_frequencies_from]. unfold CoreFreq.read_core.
    rewrite (Hcpu pf (or_introl eq_refl)). cbn.
    apply IH. intros pf' Hin. apply Hcpu. now right. }
  split; [exact Hcpu|]. split; [exact Hget|].
  unfold CoreFreq.print_all_core_frequencies. rewrite Hget. reflexivity.
Qed.

Lemma corefreq_reads_nothing_witness :
  CoreFreq.get_core_frequencies
    [("/sys/devices/system/cpu/cpu0/cpufreq/scaling_cur_freq"%string,
      Readable "2400000");
     ("/sys/devices/system/cpu/cpu1/cpufreq/scaling_cur_freq"%string,
      Readable "1800000")] = Ok ∅.
Proof.
  refine (proj1 (proj2 (corefreq_reads_nothing _ _))).
  intros pf [<-|[<-|[]]].
  - now exists "/sys/devices/system/cpu/cpu0"%string.
  - now exists "/sys/devices/system/cpu/cpu1"%string.
Defined.

(** *** The list of frequencies of features/freq.py *)

Lemma read_freq_outcome (f : file) :
  (exists v, Freq.read_freq f = Ok v) \/
  Freq.read_freq f = Raise FileNotFoundError \/
  Freq.read_freq f = Raise ValueError \/
  Freq.read_freq f = Raise PermissionError.
Proof.
  unfold Freq.read_freq. destruct f as [|s|s]; cbn; [now right; left|now do 3 right|].
  destruct (int_of_str_outcome (Py.strip s)) as [[n Hn]|Hn]; rewrite Hn; cbn.
  - left. eauto.
  - right. right. now left.
Qed.

Lemma freq_scan_from (files : cpufreq) (acc : list Q) :
  (forall freqs,
      Freq.get_core_frequencies_from files acc = Ok freqs ->
      freqs = acc ++ flat_map (fun pf => match Freq.read_freq (snd pf) with
                                         | Ok v => [v]
                                         | Raise _ => []
                                         end) files) /\
  (forall e, Freq.get_core_frequencies_from files acc = Raise e ->
             e = PermissionError /\
             exists pf s, In pf files /\ snd pf = Protected s).
Proof.
  revert acc. induction files as [|pf files IH]; intros acc.
  - split; [|discriminate]. cbn. intros freqs [= <-]. now rewrite app_nil_r.
  - cbn [Freq.get_core_frequencies_from flat_map].
    destruct (read_freq_outcome (snd pf)) as [[v Hv]|[Hv|[Hv|Hv]]]; rewrite Hv.
    + destruct (IH (acc ++ [v])) as [IHok IHerr]. split.
      * intros freqs H. rewrite (IHok freqs H). now rewrite <- app_assoc.
      * intros e H. destruct (IHerr e H) as (-> & pf' & s & Hin & Hs).
        split; [reflexivity|]. exists pf', s. split; [now right|exact Hs].
    + destruct (IH acc) as [IHok IHerr]. split.
      * intros freqs H. exact (IHok freqs H).
      * intros e H. destruct (IHerr e H) as (-> & pf' & s & Hin & Hs).
        split; [reflexivity|]. exists pf', s. split; [now right|exact Hs].
    + destruct (IH acc) as [IHok IHerr]. split.
      * intros freqs H. exact (IHok freqs H).
      * intros e H. destruct (IHerr e H) as (-> & pf' & s & Hin & Hs).
        split; [reflexivity|]. exists pf', s. split; [now right|exact Hs].
    + split; [discriminate|]. intros e [= <-]. split; [reflexivity|].
      unfold Freq.read_freq in Hv. destruct (snd pf) as [|s|s] eqn:Hf.
      * discriminate.
      * exists pf, s. split; [now left|exact Hf].
      * cbn in Hv. destruct (int_of_str_outcome (Py.strip s)) as [[n Hn]|Hn];
          rewrite Hn in Hv; discriminate.
Qed.

Lemma sum_bounds (xs : list Q) (lo hi : Q) :
  (forall x, In x xs -> (lo <= x <= hi)%Q) ->
  (lo * inject_Z (Z.of_nat (length xs)) <= fold_right Qplus 0 xs)%Q /\
  (fold_right Qplus 0 xs <= hi * inject_Z (Z.of_nat (length xs)))%Q.
Proof.
  induction xs as [|x xs IH]; intros H.
  - cbn. split; rewrite Qmult_0_r; apply Qle_refl.
  - destruct IH as [IHlo IHhi]; [intros y Hy; apply H; now right|].
    destruct (H x (or_introl eq_refl)) as [Hlo Hhi].
    cbn [length fold_right]. rewrite Nat2Z.inj_succ. unfold Z.succ.
    rewrite inject_Z_plus. change (inject_Z 1) with 1%Q. split; lra.
Qed.

(** X15. [get_core_frequencies] of features/freq.py returns, in the order
    of the scan, one frequency per file that holds an integer, skipping the
    files that are missing or do not parse; the only error it lets through
    is [PermissionError], on a file that exists and cannot be opened.
    [print_core_frequencies] returns nothing exactly when that list is
    empty, and otherwise an average that lies within any bounds of the
    frequencies read. *)
Theorem freq_scan_spec (files : cpufreq) :
  (forall freqs,
      Freq.get_core_frequencies files = Ok freqs ->
      freqs = flat_map (fun pf => match Freq.read_freq (snd pf) with
                                  | Ok v => [v]
                                  | Raise _ => []
                                  end) files /\
      (Freq.print_core_frequencies files = Ok None <-> freqs = []) /\
      (forall avg lo hi,
          Freq.print_core_frequencies files = Ok (Some avg) ->
          (forall x, In x freqs -> (lo <= x <= hi)%Q) ->
          (lo <= avg <= hi)%Q)) /\
  (forall e, Freq.get_core_frequencies files = Raise e ->
             e = PermissionError /\
             exists pf s, In pf files /\ snd pf = Protected s).
Proof.
  destruct (freq_scan_from files []) as [Hok Herr]. split; [|exact Herr].
  intros freqs Hget. split; [exact (Hok freqs Hget)|].
  unfold Freq.print_core_frequencies. rewrite Hget. cbn. split.
  - destruct freqs; split; congruence.
  - intros avg lo hi Havg Hb. destruct freqs as [|x xs]; [discriminate|].
    injection Havg as <-. unfold Freq.mean.
    destruct (sum_bounds (x :: xs) lo hi Hb) as [Hlo Hhi].
    assert (Hlen : (0 < inject_Z (Z.of_nat (length (x :: xs))))%Q).
    { change 0%Q with (inject_Z 0). rewrite <- Zlt_Qlt. cbn [length]. lia. }
    split.
    + apply Qle_shift_div_l; assumption.
    + apply Qle_shift_div_r; assumption.
Qed.

(** ** Allocation of stressmemory.py *)

Lemma string_length_of_list (cs : list ascii) :
  String.length (string_of_list_ascii cs) = length cs.
Proof. induction cs as [|c cs IH]; [reflexivity|]. cbn. now rewrite IH. Qed.

Lemma allocated_bytes_repeat (block : string) (n : nat) :
  StressMemory.allocated_bytes (repeat block n)
  = Z.of_nat n * Z.of_nat (String.length block).
Proof.
  induction n as [|n IH]; [reflexivity|].
  cbn [repeat StressMemory.allocated_bytes fold_right].
  fold (StressMemory.allocated_bytes (repeat block n)). rewrite IH. lia.
Qed.

(** X16. With memory to spare, [stress_memory] allocates
    [bytes_to_allocate // 2^20] blocks of 2^20 characters each, where
    [bytes_to_allocate = int(total * fraction)] is computed in double
    precision: the bytes held never exceed [bytes_to_allocate] and fall
    short of it by less than one block; [bytes_to_allocate] is the floor
    of the exact share or one byte above it, and at most the RAM. On
    [MemoryError] the function returns the empty list. The RAM is below
    [2^53] bytes and the fraction in [[0, 1]]. *)
Theorem stress_memory_allocation (total_mem : Z) (fraction : Q) :
  0 <= total_mem < 2 ^ 53 -> (0 <= fraction <= 1)%Q ->
  Z.of_nat (length (StressMemory.stress_memory total_mem fraction false))
  = StressMemory.bytes_to_allocate total_mem fraction / StressMemory.block_size /\
  (forall block, In block (StressMemory.stress_memory total_mem fraction false) ->
                 Z.of_nat (String.length block) = StressMemory.block_size) /\
  StressMemory.allocated_bytes (StressMemory.stress_memory total_mem fraction false)
    <= StressMemory.bytes_to_allocate total_mem fraction /\
  StressMemory.bytes_to_allocate total_mem fraction
    < StressMemory.allocated_bytes
        (StressMemory.stress_memory total_mem fraction false)
      + StressMemory.block_size /\
  Qfloor (inject_Z total_mem * fraction)
    <= StressMemory.bytes_to_allocate total_mem fraction
    <= Qfloor (inject_Z total_mem * fraction) + 1 /\
  StressMemory.bytes_to_allocate total_mem fraction <= total_mem /\
  StressMemory.stress_memory total_mem fraction true = [].
Proof.
  intros Ht [Hf Hf1].
  pose proof (sized_nonneg total_mem fraction ltac:(lia) Hf) as Hb0.
  fold (StressMemory.bytes_to_allocate total_mem fraction) in Hb0.
  assert (HB : 0 < StressMemory.block_size) by (unfold StressMemory.block_size; lia).
  assert (Hlen : Z.of_nat (String.length (StressMemory.str_mul "x" StressMemory.block_size))
                 = StressMemory.block_size).
  { unfold StressMemory.str_mul. rewrite string_length_of_list, repeat_length.
    apply Z2Nat.id. lia. }
  unfold StressMemory.stress_memory. cbv zeta.
  set (bytes := StressMemory.bytes_to_allocate total_mem fraction) in *.
  assert (Hblocks : 0 <= bytes / StressMemory.block_size) by (apply Z.div_pos; lia).
  pose proof (Z.mul_div_le bytes _ HB) as Hdown.
  pose proof (Z.mul_succ_div_gt bytes _ HB) as Hup.
  destruct (sized_bounds total_mem fraction Ht Hf Hf1) as [Hfl Htop].
  fold (StressMemory.bytes_to_allocate total_mem fraction) in Hfl, Htop.
  fold bytes in Hfl, Htop.
  split; [|split; [|split; [|split; [|split; [|split]]]]].
  - rewrite repeat_length, Z2Nat.id by exact Hblocks. reflexivity.
  - intros block Hin. apply repeat_spec in Hin. now subst block.
  - rewrite allocated_bytes_repeat, Hlen, Z2Nat.id by exact Hblocks. lia.
  - rewrite allocated_bytes_repeat, Hlen, Z2Nat.id by exact Hblocks. lia.
  - exact Hfl.
  - exact Htop.
  - reflexivity.
Qed.

Lemma stress_memory_allocation_witness :
  Z.of_nat (length (StressMemory.stress_memory 8388608 (Binary64.round 0.4) false))
  = StressMemory.bytes_to_allocate 8388608 (Binary64.round 0.4)
    / StressMemory.block_size /\
  StressMemory.bytes_to_allocate 8388608 (Binary64.round 0.4) = 3355443.
Proof.
  assert (Ht : 0 <= 8388608 < 2 ^ 53) by lia.
  assert (Hf : (0 <= Binary64.round 0.4 <= 1)%Q)
    by (split; vm_compute; discriminate).
  split; [exact (proj1 (stress_memory_allocation 8388608 _ Ht Hf))|].
  vm_compute. reflexivity.
Defined.

(** ** The write loop of stressdisk.py *)

Lemma write_data_from_spec (free_blocks : nat) (to_write written : Z) :
  written mod StressDisk.block_size = 0 ->
  written <= fst (StressDisk.write_data_from free_blocks to_write written) /\
  fst (StressDisk.write_data_from free_blocks to_write written)
    mod StressDisk.block_size = 0 /\
  (snd (StressDisk.write_data_from free_blocks to_write written) = false ->
   to_write <= fst (StressDisk.write_data_from free_blocks to_write written) /\
   (written < to_write ->
    fst (StressDisk.write_data_from free_blocks to_write written)
    < to_write + StressDisk.block_size) /\
   (to_write <= written ->
    fst (StressDisk.write_data_from free_blocks to_write written) = written)) /\
  (snd (StressDisk.write_data_from free_blocks to_write written) = true ->
   fst (StressDisk.write_data_from free_blocks to_write written)
   = written + Z.of_nat free_blocks * StressDisk.block_size /\
   fst (StressDisk.write_data_from free_blocks to_write written) < to_write) /\
  (to_write <= written + Z.of_nat free_blocks * StressDisk.block_size ->
   snd (StressDisk.write_data_from free_blocks to_write written) = false).
Proof.
  assert (HB : 0 < StressDisk.block_size) by (unfold StressDisk.block_size; lia).
  revert written. induction free_blocks as [|k IH]; intros written Hmod.
  - cbn [StressDisk.write_data_from].
    destruct (Z.ltb_spec written to_write) as [Hlt|Hge]; cbn [fst snd].
    + repeat split; try lia; try discriminate; try exact Hmod.
    + repeat split; try lia; try discriminate; try exact Hmod.
  - cbn [StressDisk.write_data_from].
    destruct (Z.ltb_spec written to_write) as [Hlt|Hge]; cbn [fst snd].
    + assert (Hmod' : (written + StressDisk.block_size) mod StressDisk.block_size = 0).
      { rewrite <- (Z.mul_1_l StressDisk.block_size) at 1.
        now rewrite Z_mod_plus_full. }
      destruct (IH (written + StressDisk.block_size) Hmod')
        as (Hle & Hm & Hok & Herr & Henough).
      split; [lia|]. split; [exact Hm|]. split; [|split].
      * intros Hs. destruct (Hok Hs) as (H1 & H2 & H3).
        split; [exact H1|]. split; [|lia]. intros _.
        destruct (Z.lt_ge_cases (written + StressDisk.block_size) to_write) as [Hc|Hc].
        -- now apply H2.
        -- rewrite (H3 Hc). lia.
      * intros Hs. destruct (Herr Hs) as [H1 H2]. split; [|exact H2].
        rewrite H1. lia.
      * intros Hen. apply Henough. lia.
    + repeat split; try lia; try discriminate; try exact Hmod.
Qed.

(** X17. The write loop of stressdisk.py writes whole blocks of 2^20
    bytes: it ends normally with at least [to_write] bytes written and less
    than one block above it (nothing at all when [to_write] is not
    positive), whenever the disk takes that many blocks; when a write
    raises first, it stops with every block the disk took and fewer bytes
    than asked. *)
Theorem write_data_spec (free_blocks : nat) (to_write : Z) :
  0 <= fst (StressDisk.write_data free_blocks to_write) /\
  fst (StressDisk.write_data free_blocks to_write) mod StressDisk.block_size = 0 /\
  (snd (StressDisk.write_data free_blocks to_write) = false ->
   to_write <= fst (StressDisk.write_data free_blocks to_write) /\
   fst (StressDisk.write_data free_blocks to_write)
   < Z.max to_write 0 + StressDisk.block_size /\
   (to_write <= 0 -> fst (StressDisk.write_data free_blocks to_write) = 0)) /\
  (snd (StressDisk.write_data free_blocks to_write) = true ->
   fst (StressDisk.write_data free_blocks to_write)
   = Z.of_nat free_blocks * StressDisk.block_size /\
   fst (StressDisk.write_data free_blocks to_write) < to_write) /\
  (to_write <= Z.of_nat free_blocks * StressDisk.block_size ->
   snd (StressDisk.write_data free_blocks to_write) = false).
Proof.
  assert (HB : 0 < StressDisk.block_size) by (unfold StressDisk.block_size; lia).
  unfold StressDisk.write_data.
  assert (H0 : 0 mod StressDisk.block_size = 0) by (apply Z.mod_0_l; lia).
  destruct (write_data_from_spec free_blocks to_write 0 H0)
    as (Hle & Hm & Hok & Herr & Henough).
  split; [exact Hle|]. split; [exact Hm|]. split; [|split].
  - intros Hs. destruct (Hok Hs) as (H1 & H2 & H3). split; [exact H1|]. split.
    + destruct (Z.lt_ge_cases 0 to_write) as [Hc|Hc].
      * specialize (H2 Hc). lia.
      * rewrite (H3 Hc). lia.
    + exact H3.
  - intros Hs. destruct (Herr Hs) as [H1 H2]. split; [|exact H2].
    rewrite H1. lia.
  - intros Hen. apply Henough. lia.
Qed.

(** ** The arrays of the memory loads *)

Lemma ones_length (n : Z) : 0 <= n -> Z.of_nat (length (MemoryBandwidthStress.ones n)) = n.
Proof.
  intros Hn. unfold MemoryBandwidthStress.ones. rewrite repeat_length.
  now apply Z2Nat.id.
Qed.

Lemma add_inplace_length (a b : list Q) :
  length a = length b -> length (MemoryBandwidthStress.add_inplace a b) = length a.
Proof.
  revert b. induction a as [|x a IH]; intros [|y b] Hlen; try discriminate;
    [reflexivity|].
  cbn [MemoryBandwidthStress.add_inplace length]. rewrite IH; [reflexivity|].
  now injection Hlen.
Qed.

Lemma passes_length (k : nat) (a b : list Q) :
  length a = length b -> length (MemoryBandwidthStress.passes k a b) = length a.
Proof.
  revert a. induction k as [|k IH]; intros a Hlen; [reflexivity|].
  cbn [MemoryBandwidthStress.passes].
  rewrite IH; rewrite add_inplace_length; congruence.
Qed.

Lemma add_inplace_spec (a b : list Q) (c : Z) :
  0 <= c < 2 ^ 53 -> length a = length b ->
  (forall x, In x a -> (x == inject_Z c)%Q) -> (forall y, In y b -> (y == 1)%Q) ->
  length (MemoryBandwidthStress.add_inplace a b) = length a /\
  (forall x, In x (MemoryBandwidthStress.add_inplace a b) ->
             (x == inject_Z (c + 1))%Q).
Proof.
  intros Hc. revert b. induction a as [|x a IH]; intros [|y b] Hlen Ha Hb;
    try discriminate; [split; [reflexivity|intros ? []]|].
  cbn [MemoryBandwidthStress.add_inplace length].
  destruct (IH b) as [IHl IHv].
  - now injection Hlen.
  - intros z Hz. apply Ha. now right.
  - intros z Hz. apply Hb. now right.
  - split; [now rewrite IHl|].
    intros z [<-|Hz]; [|now apply IHv].
    unfold Binary64.add. rewrite <- (round_Z (c + 1)) by lia.
    apply round_comp.
    rewrite (Ha x (or_introl eq_refl)), (Hb y (or_introl eq_refl)).
    rewrite inject_Z_plus. reflexivity.
Qed.

Lemma passes_spec (k : nat) (a b : list Q) (c : Z) :
  0 <= c -> c + Z.of_nat k <= 2 ^ 53 -> length a = length b ->
  (forall x, In x a -> (x == inject_Z c)%Q) -> (forall y, In y b -> (y == 1)%Q) ->
  length (MemoryBandwidthStress.passes k a b) = length a /\
  (forall x, In x (MemoryBandwidthStress.passes k a b) ->
             (x == inject_Z (c + Z.of_nat k))%Q).
Proof.
  revert a c. induction k as [|k IH]; intros a c Hc Hk Hlen Ha Hb.
  - cbn. split; [reflexivity|]. intros x Hx. rewrite (Ha x Hx), Z.add_0_r.
    reflexivity.
  - cbn [MemoryBandwidthStress.passes].
    destruct (add_inplace_spec a b c ltac:(lia) Hlen Ha Hb) as [Hl Hv].
    destruct (IH (MemoryBandwidthStress.add_inplace a b) (c + 1)) as [IHl IHv];
      [lia|lia|congruence|exact Hv|exact Hb|].
    split; [congruence|]. intros x Hx. rewrite (IHv x Hx).
    replace (c + 1 + Z.of_nat k) with (c + Z.of_nat (S k)) by lia. reflexivity.
Qed.

(** X18. [memory_bandwidth_stress] builds two arrays of
    [bytes_to_use // 8] float64 each, where
    [bytes_to_use = int(total * fraction)] is computed in double precision:
    together they hold twice [bytes_to_use], to within 16 bytes, and not
    [bytes_to_use] itself; [bytes_to_use] is the floor of the exact share
    or one byte above it. After the passes every element of the first
    array is [1 + iterations], the second array is untouched and the bytes
    counted as moved are [16 * n_elements * iterations]. The RAM is below
    [2^53] bytes, the fraction in [[0, 1]] and the passes fewer than
    [2^53]. *)
Theorem memory_bandwidth_stress_spec (total_mem : Z) (fraction : Q) (iterations : Z) :
  0 <= total_mem < 2 ^ 53 -> (0 <= fraction <= 1)%Q -> 0 <= iterations < 2 ^ 53 ->
  let a := fst (fst (MemoryBandwidthStress.memory_bandwidth_stress
                       total_mem fraction iterations)) in
  let b := snd (fst (MemoryBandwidthStress.memory_bandwidth_stress
                       total_mem fraction iterations)) in
  let total_bytes := snd (MemoryBandwidthStress.memory_bandwidth_stress
                            total_mem fraction iterations) in
  let bytes_to_use := MemoryBandwidthStress.bytes_to_use total_mem fraction in
  Z.of_nat (length a) = bytes_to_use / 8 /\
  length b = length a /\
  MemoryBandwidthStress.nbytes a + MemoryBandwidthStress.nbytes b
    <= 2 * bytes_to_use /\
  2 * bytes_to_use - 16
    < MemoryBandwidthStress.nbytes a + MemoryBandwidthStress.nbytes b /\
  Qfloor (inject_Z total_mem * fraction) <= bytes_to_use
    <= Qfloor (inject_Z total_mem * fraction) + 1 /\
  (forall x, In x a -> (x == inject_Z (1 + iterations))%Q) /\
  (forall y, In y b -> y = 1%Q) /\
  total_bytes = 16 * (bytes_to_use / 8) * iterations.
Proof.
  intros Ht [Hf Hf1] [Hi Hit]. cbv zeta.
  pose proof (sized_nonneg total_mem fraction ltac:(lia) Hf) as Hb0.
  fold (MemoryBandwidthStress.bytes_to_use total_mem fraction) in Hb0.
  unfold MemoryBandwidthStress.memory_bandwidth_stress. cbv zeta. cbn [fst snd].
  unfold MemoryBandwidthStress.n_elements.
  set (bytes := MemoryBandwidthStress.bytes_to_use total_mem fraction) in *.
  assert (Hn : 0 <= bytes / 8) by (apply Z.div_pos; lia).
  pose proof (Z.mul_div_le bytes 8 ltac:(lia)) as Hdown.
  pose proof (Z.mul_succ_div_gt bytes 8 ltac:(lia)) as Hup.
  assert (Hones : forall y, In y (MemoryBandwidthStress.ones (bytes / 8)) -> y = 1%Q).
  { intros y Hy. now apply repeat_spec in Hy. }
  pose proof (passes_length (Z.to_nat iterations)
                (MemoryBandwidthStress.ones (bytes / 8))
                (MemoryBandwidthStress.ones (bytes / 8)) eq_refl) as Hl.
  unfold MemoryBandwidthStress.nbytes. rewrite Hl, ones_length by exact Hn.
  split; [reflexivity|]. split; [reflexivity|].
  split; [lia|]. split; [lia|]. split; [|split; [|split]].
  - unfold bytes, MemoryBandwidthStress.bytes_to_use.
    apply sized_bounds; [lia | exact Hf | exact Hf1].
  - destruct (passes_spec (Z.to_nat iterations)
                (MemoryBandwidthStress.ones (bytes / 8))
                (MemoryBandwidthStress.ones (bytes / 8)) 1) as [_ Hv];
      [lia | rewrite Z2Nat.id by exact Hi; lia | reflexivity | | |].
    + intros x Hx'. now rewrite (Hones x Hx').
    + intros y Hy. now rewrite (Hones y Hy).
    + rewrite Z2Nat.id in Hv by exact Hi. exact Hv.
  - exact Hones.
  - lia.
Qed.

Lemma memory_bandwidth_stress_spec_witness :
  Z.of_nat (length (fst (fst (MemoryBandwidthStress.memory_bandwidth_stress 1000 0.5 3))))
  = MemoryBandwidthStress.bytes_to_use 1000 0.5 / 8 /\
  MemoryBandwidthStress.bytes_to_use 1000 0.5 = 500.
Proof.
  assert (Ht : 0 <= 1000 < 2 ^ 53) by lia.
  assert (Hf : (0 <= 0.5 <= 1)%Q) by (split; discriminate).
  assert (Hi : 0 <= 3 < 2 ^ 53) by lia.
  split; [exact (proj1 (memory_bandwidth_stress_spec 1000 0.5 3 Ht Hf Hi))|].
  vm_compute. reflexivity.
Defined.

(** *** The arrays of a worker of bwdatatransfer.py *)

Lemma stream_add_spec (a b c : list Q) (v : Z) :
  0 <= v -> v + 2 <= 2 ^ 53 ->
  length a = length b -> length a = length c ->
  (forall x, In x a -> (x == inject_Z v)%Q) ->
  (forall y, In y b -> (y == 1)%Q) -> (forall z, In z c -> (z == 1)%Q) ->
  length (BwWorker.stream_add a b c) = length a /\
  (forall x, In x (BwWorker.stream_add a b c) -> (x == inject_Z (v + 2))%Q).
Proof.
  intros Hv0 Hv. revert b c.
  induction a as [|x a IH]; intros [|y b] [|z c] Hb Hc Ha Hbv Hcv;
    try discriminate; [split; [reflexivity|intros ? []]|].
  cbn [BwWorker.stream_add length].
  destruct (IH b c) as [IHl IHv].
  - now injection Hb.
  - now injection Hc.
  - intros w Hw. apply Ha. now right.
  - intros w Hw. apply Hbv. now right.
  - intros w Hw. apply Hcv. now right.
  - split; [now rewrite IHl|].
    intros w [<-|Hw]; [|now apply IHv].
    assert (Eyz : (Binary64.add y z == 2)%Q).
    { unfold Binary64.add. rewrite <- (round_Z 2) by lia. apply round_comp.
      rewrite (Hbv y (or_introl eq_refl)), (Hcv z (or_introl eq_refl)).
      reflexivity. }
    unfold Binary64.add at 1. rewrite <- (round_Z (v + 2)) by lia.
    apply round_comp.
    rewrite (Ha x (or_introl eq_refl)), Eyz, inject_Z_plus. reflexivity.
Qed.

Lemma stream_passes_spec (k : nat) (a b c : list Q) (v : Z) :
  0 <= v -> v + 2 * Z.of_nat k <= 2 ^ 53 ->
  length a = length b -> length a = length c ->
  (forall x, In x a -> (x == inject_Z v)%Q) ->
  (forall y, In y b -> (y == 1)%Q) -> (forall z, In z c -> (z == 1)%Q) ->
  length (BwWorker.stream_passes k a b c) = length a /\
  (forall x, In x (BwWorker.stream_passes k a b c) ->
             (x == inject_Z (v + 2 * Z.of_nat k))%Q).
Proof.
  revert a v. induction k as [|k IH]; intros a v Hv0 Hk Hb Hc Ha Hbv Hcv.
  - cbn. split; [reflexivity|]. intros x Hx. rewrite (Ha x Hx), Z.add_0_r.
    reflexivity.
  - cbn [BwWorker.stream_passes].
    destruct (stream_add_spec a b c v Hv0 ltac:(lia) Hb Hc Ha Hbv Hcv) as [Hl Hv].
    destruct (IH (BwWorker.stream_add a b c) (v + 2)) as [IHl IHv];
      [lia|lia|congruence|congruence|exact Hv|exact Hbv|exact Hcv|].
    split; [congruence|]. intros x Hx. rewrite (IHv x Hx).
    replace (v + 2 + 2 * Z.of_nat k) with (v + 2 * Z.of_nat (S k)) by lia.
    reflexivity.
Qed.

(** X19. The three arrays of a worker of bwdatatransfer.py hold
    [24 * ((bytes_to_use // 3) // 8)] bytes, where
    [bytes_to_use = int(total * fraction)] is computed in double precision:
    never more than [bytes_to_use] and less than 24 bytes short of it;
    [bytes_to_use] is the floor of the exact share or one byte above it.
    Starting from arrays of ones, [k] passes of the kernel leave [1 + 2k]
    in every element of the first array. The RAM is below [2^53] bytes,
    the fraction in [[0, 1]] and [1 + 2k] at most [2^53]. *)
Theorem bw_worker_share (total : Z) (fraction : Q) (k : nat) :
  0 <= total < 2 ^ 53 -> (0 <= fraction <= 1)%Q -> 1 + 2 * Z.of_nat k <= 2 ^ 53 ->
  BwWorker.footprint total fraction
    = 24 * (BwWorker.bytes_to_use total fraction / 3 / 8) /\
  BwWorker.footprint total fraction <= BwWorker.bytes_to_use total fraction /\
  BwWorker.bytes_to_use total fraction < BwWorker.footprint total fraction + 24 /\
  Qfloor (inject_Z total * fraction) <= BwWorker.bytes_to_use total fraction
    <= Qfloor (inject_Z total * fraction) + 1 /\
  (forall x,
     In x (BwWorker.stream_passes k
             (MemoryBandwidthStress.ones (BwWorker.n_elements total fraction))
             (MemoryBandwidthStress.ones (BwWorker.n_elements total fraction))
             (MemoryBandwidthStress.ones (BwWorker.n_elements total fraction))) ->
     (x == inject_Z (1 + 2 * Z.of_nat k))%Q).
Proof.
  intros Ht [Hf Hf1] Hk.
  pose proof (sized_nonneg total fraction ltac:(lia) Hf) as Hb0.
  fold (BwWorker.bytes_to_use total fraction) in Hb0.
  unfold BwWorker.footprint, BwWorker.n_elements. cbv zeta.
  set (bytes := BwWorker.bytes_to_use total fraction) in *.
  assert (H3 : 0 <= bytes / 3) by (apply Z.div_pos; lia).
  assert (H8 : 0 <= bytes / 3 / 8) by (apply Z.div_pos; lia).
  rewrite ones_length by exact H8.
  pose proof (Z.mul_div_le bytes 3 ltac:(lia)).
  pose proof (Z.mul_div_le (bytes / 3) 8 ltac:(lia)).
  pose proof (Z.mul_succ_div_gt bytes 3 ltac:(lia)).
  pose proof (Z.mul_succ_div_gt (bytes / 3) 8 ltac:(lia)).
  split; [lia|]. split; [lia|]. split; [lia|]. split.
  - unfold bytes, BwWorker.bytes_to_use.
    apply sized_bounds; [lia | exact Hf | exact Hf1].
  - intros x Hin.
    assert (Hones : forall n y, In y (MemoryBandwidthStress.ones n) -> (y == 1)%Q).
    { intros n y Hy. apply repeat_spec in Hy. now rewrite Hy. }
    destruct (stream_passes_spec k
                (MemoryBandwidthStress.ones (bytes / 3 / 8))
                (MemoryBandwidthStress.ones (bytes / 3 / 8))
                (MemoryBandwidthStress.ones (bytes / 3 / 8))
                1 ltac:(lia) Hk eq_refl eq_refl
                (Hones _) (Hones _) (Hones _)) as [_ Hv].
    exact (Hv x Hin).
Qed.

Lemma bw_worker_share_witness :
  BwWorker.footprint 1000000 (1 # 8) <= BwWorker.bytes_to_use 1000000 (1 # 8) /\
  BwWorker.bytes_to_use 1000000 (1 # 8) = 125000.
Proof.
  assert (Ht : 0 <= 1000000 < 2 ^ 53) by lia.
  assert (Ha : (0 <= 1 # 8 <= 1)%Q) by (split; discriminate).
  assert (Hk : 1 + 2 * Z.of_nat 0 <= 2 ^ 53) by (cbn; lia).
  split; [exact (proj1 (proj2 (bw_worker_share 1000000 (1 # 8) 0 Ht Ha Hk)))|].
  vm_compute. reflexivity.
Defined.

(** ** Refusals of dutycyclecpustress.py *)

(** X20. dutycyclecpustress.py checks the fraction first and the interval
    and duration next: a fraction outside [[0, 1]] gives the fraction error
    whatever the other two are, an interval or a duration that is not
    positive gives the other error, and in both cases nothing else is done.
    Every run that starts a worker has passed both checks. *)
Theorem duty_main_validation (a interval : Q) (duration : Z) (h : host) :
  (~ (0 <= a /\ a <= 1)%Q ->
   DutyCycleCpuStress.main a interval duration h
   = mkM [EvPrint DutyCycleCpuStress.fraction_error] (Ok None)) /\
  ((0 <= a /\ a <= 1)%Q -> (interval <= 0)%Q \/ duration <= 0 ->
   DutyCycleCpuStress.main a interval duration h
   = mkM [EvPrint DutyCycleCpuStress.positive_error] (Ok None)) /\
  (spawned (trace (DutyCycleCpuStress.main a interval duration h)) <> [] ->
   (0 <= a /\ a <= 1)%Q /\ (0 < interval)%Q /\ 0 < duration).
Proof.
  split; [|split].
  - intros H. unfold DutyCycleCpuStress.main.
    now rewrite (range_closed_false a H).
  - intros [H0 H1] Hbad. unfold DutyCycleCpuStress.main.
    rewrite (proj2 (le_true_iff 0 a) H0), (proj2 (le_true_iff a 1) H1). cbn [andb negb].
    assert (E : (Py.le interval 0 || (duration <=? 0))%bool = true).
    { destruct Hbad as [Hi|Hd].
      - now rewrite (proj2 (le_true_iff interval 0) Hi).
      - rewrite (proj2 (Z.leb_le duration 0) Hd). apply orb_true_r. }
    now rewrite E.
  - unfold DutyCycleCpuStress.main.
    destruct (Py.le 0 a) eqn:E0; [|intros H; now contradiction H].
    destruct (Py.le a 1) eqn:E1; [|intros H; now contradiction H].
    cbn [andb negb].
    destruct (Py.le interval 0) eqn:Ei; [intros H; now contradiction H|].
    destruct (Z.leb_spec duration 0) as [Hd|Hd]; [intros H; now contradiction H|].
    intros _. repeat split.
    + now apply le_true_iff.
    + now apply le_true_iff.
    + now apply le_false_iff.
    + exact Hd.
Qed.
